(** * The handler pipeline of package state (pkg/state/handler.go and the
      options of the package)

    A shallow embedding of the [Runner] of package [state]: a [Runner]
    owns an ordered list of [Handler]s and one [State]; [Run] derives a
    cancellable context, stores its cancel function in the [State] and
    feeds every handler the pair (context, state) until one of them
    returns an error; once the derived context is done the remaining
    handlers are skipped.

    Modelling choices.
    - Go's [error] is [option Err]: [None] is [nil].
    - [context.Context] is the chain of cancellable contexts above it;
      every context made by [WithCancel] (or with a deadline or a
      timeout) owns one cell of a store of cancellation flags, and its
      [CancelFunc] is the index of that cell. The flag is set when the
      context is cancelled or when its deadline passes.
      Execution is single threaded, as the loop of [Run] is.
    - [State] is the struct of the source; its field [stop] is
      [None] when the Go field holds the nil function.
    - A handler is Go code that reaches the pipeline through the exported
      methods of [*State] and through the context it is given (the fields
      of [State] are not exported). It is embedded as a finite command
      tree [Prog] over exactly these calls, plus reads and writes of
      whatever the closure captured ([Ext]), plus the cancellation of a
      context other than the one of the run while the handler runs
      ([CtxCancel]: the handler calls a cancel function its closure
      holds, such as the one of the context the caller gave to [Run], or
      a deadline passes, or someone else cancels the context). A
      handler returns, and does not panic unless a call of [Stop()]
      does.
    - Calling a nil function value panics: computations end in [Ok] or
      [Panic].
    - Every computation also returns the list of [Event]s it went
      through. The events are ghost instrumentation: no definition reads
      them, they only let the theorems speak about what was executed. *)

From stdpp Require Import base list strings.

Set Default Proof Using "Type".

(** ** package context *)

Module context.

(** A context is [Background] (never done; [context.TODO] is the same)
    or a child of another context with a flag of its own: a context made
    by [WithCancel], [WithDeadline] or [WithTimeout]. *)
Inductive Context : Type :=
| Background
| cancelCtx (parent : Context) (cell : nat).

Definition TODO : Context := Background.

(** A [CancelFunc] made by [WithCancel] closes over its own context:
    it is the cell it sets. *)
Definition CancelFunc : Type := nat.

(** The cancellation flags of the contexts created so far. *)
Abbreviation Flags := (list bool).

Definition flag (fl : Flags) (c : nat) : bool := default false (fl !! c).

(** [<-ctx.Done()] in a [select] with a [default] branch: a non-blocking
    test. A child is done as soon as it or one of its ancestors is. *)
Fixpoint Done (fl : Flags) (ctx : Context) : bool :=
  match ctx with
  | Background => false
  | cancelCtx parent c => flag fl c || Done fl parent
  end.

(** [context.WithCancel(parent)]: a new context with a flag of its own.
    The child of a parent that is done is done from the start, as [Done]
    looks through the ancestors. *)
Definition WithCancel (parent : Context) (fl : Flags)
  : Context * CancelFunc * Flags :=
  let c := length fl in (cancelCtx parent c, c, fl ++ [false]).

(** Calling a [CancelFunc], or the deadline of the context passing: the
    first time sets the flag, later calls return at once
    ([if c.err != nil { return }]). *)
Definition cancel (c : CancelFunc) (fl : Flags) : Flags :=
  if flag fl c then fl else <[c := true]> fl.

End context.

Import context.

Section Pipeline.

(** The types of the collaborators: error values, [client.Client],
    [logr.Logger] (with its zero value) and the data captured by the
    closures of the handlers. *)
Variable Err : Type.
Variable K8sClient : Type.
Variable Logger : Type.
Variable zeroLogger : Logger.
Variable Ext : Type.

Definition error : Type := option Err.

(** ** type State *)

Record State : Type := mkState {
  stop : option CancelFunc;
  client : K8sClient;
  log : Logger
}.

(** Everything mutable outside of the [Runner]. *)
Record Mem : Type := mkMem {
  flags : Flags;
  ext : Ext
}.

(** ** Events (ghost) *)

Inductive Event : Type :=
| EvBind (c : CancelFunc)        (* r.state.stop = cancel *)
| EvEnter (i : nat)              (* h.Handle(ctx, &r.state) is called for handler i *)
| EvStop (i : nat)               (* handler i calls s.Stop() *)
| EvLeave (i : nat) (e : error). (* handler i returns e *)

(** ** Computations over the state of the runner and the memory *)

Inductive Res (A : Type) : Type :=
| Ok (a : A) (s : State) (m : Mem) (tr : list Event)
| Panic.
Arguments Ok {A} a s m tr.
Arguments Panic {A}.

Definition M (A : Type) : Type := State → Mem → Res A.

#[global] Instance M_ret : MRet M := λ A a s m, Ok a s m [].

#[global] Instance M_bind : MBind M := λ A B f c s m,
  match c s m with
  | Ok a s1 m1 tr1 =>
      match f a s1 m1 with
      | Ok b s2 m2 tr2 => Ok b s2 m2 (tr1 ++ tr2)
      | Panic => Panic
      end
  | Panic => Panic
  end.

Definition emit (ev : Event) : M unit := λ s m, Ok tt s m [ev].

Definition result {A} (o : Res A) : option A :=
  match o with Ok a _ _ _ => Some a | Panic => None end.

Definition trace {A} (o : Res A) : list Event :=
  match o with Ok _ _ _ tr => tr | Panic => [] end.

(** What a caller can see of a finished computation: the value, the
    state and the memory, not the ghost events. *)
Definition outcome {A} (o : Res A) : option (A * State * Mem) :=
  match o with Ok a s m _ => Some (a, s, m) | Panic => None end.

(** ** Methods of *State *)

(** [func (s *State) Log() logr.Logger] *)
Definition Log : M Logger := λ s m, Ok (log s) s m [].

(** [func (s *State) Client() client.Client] *)
Definition Client : M K8sClient := λ s m, Ok (client s) s m [].

(** [func (s *State) Stop() { s.stop() }] *)
Definition Stop : M unit := λ s m,
  match stop s with
  | None => Panic
  | Some c => Ok tt s (mkMem (cancel c (flags m)) (ext m)) []
  end.

(** ** Handlers *)

(** The code of a handler. *)
Inductive Prog (A : Type) : Type :=
| Return (a : A)
| CallStop (k : Prog A)                          (* s.Stop() *)
| CallLog (k : Logger → Prog A)                  (* s.Log() *)
| CallClient (k : K8sClient → Prog A)            (* s.Client() *)
| CtxDone (ctx : Context) (k : bool → Prog A)    (* ctx.Err() != nil *)
| CtxCancel (c : CancelFunc) (k : Prog A)        (* cancel(), or a deadline passes *)
| ExtGet (k : Ext → Prog A)
| ExtPut (x : Ext) (k : Prog A).
Arguments Return {A} a.
Arguments CallStop {A} k.
Arguments CallLog {A} k.
Arguments CallClient {A} k.
Arguments CtxDone {A} ctx k.
Arguments CtxCancel {A} c k.
Arguments ExtGet {A} k.
Arguments ExtPut {A} x k.

(** Running the code of handler number [i]. The cancel function of the
    context of the run is in the field [stop], which is not exported: a
    handler calls it through [Stop()] and holds no copy of it, so
    [CtxCancel] on that cell is not something a handler does, and does
    nothing. *)
Fixpoint exec {A} (i : nat) (p : Prog A) : M A :=
  match p with
  | Return a => mret a
  | CallStop k => _ ← Stop; _ ← emit (EvStop i); exec i k
  | CallLog k => l ← Log; exec i (k l)
  | CallClient k => c ← Client; exec i (k c)
  | CtxDone ctx k => λ s m, exec i (k (Done (flags m) ctx)) s m
  | CtxCancel c k => λ s m,
      if decide (stop s = Some c) then exec i k s m
      else exec i k s (mkMem (cancel c (flags m)) (ext m))
  | ExtGet k => λ s m, exec i (k (ext m)) s m
  | ExtPut x k => λ s m, exec i k s (mkMem (flags m) x)
  end.

(** [type HandlerFunc func(ctx context.Context, s *State) error] *)
Definition HandlerFunc : Type := Context → Prog error.

(** [type Handler interface { Handle(ctx, s *State) error }] *)
Record Handler : Type := mkHandler { Handle : Context → Prog error }.

(** [func (h HandlerFunc) Handle(ctx, s) error { return h(ctx, s) }] *)
Definition HandlerFunc_Handler (h : HandlerFunc) : Handler :=
  mkHandler (λ ctx, h ctx).

(** ** type Runner *)

Record Runner : Type := mkRunner {
  handlers : list Handler;
  state : State
}.

(** The [for _, h := range r.handlers] loop of [Run]; [i] is the
    position of the head of [hs] in [r.handlers]. The [break] of the
    first [select] case leaves the [select] only: the loop goes on to
    the next handler. *)
Fixpoint loop (ctx : Context) (hs : list Handler) (i : nat) : M error :=
  match hs with
  | [] => mret None
  | h :: hs' =>
      λ s m,
        if Done (flags m) ctx then loop ctx hs' (S i) s m
        else
          (_ ← emit (EvEnter i);
           err ← exec i (Handle h ctx);
           _ ← emit (EvLeave i err);
           match err with
           | Some e => mret (Some e)
           | None => loop ctx hs' (S i)
           end) s m
  end.

(** [func (r *Runner) Run(ctx context.Context) error]. The state of the
    result is [r.state] after the call. *)
Definition Run (r : Runner) (ctx : Context) : Mem → Res error :=
  λ m,
    let '(ctx', cancel, fl) := WithCancel ctx (flags m) in
    (_ ← emit (EvBind cancel);
     loop ctx' (handlers r) 0)
      (mkState (Some cancel) (client (state r)) (log (state r)))
      (mkMem fl (ext m)).

(** ** Options and construction *)

(** [type Option func(s *State)] *)
Definition Option : Type := State → State.

(** [func WithLogger(log logr.Logger) Option] *)
Definition WithLogger (l : Logger) : Option :=
  λ s, mkState (stop s) (client s) l.

(** [func New(client client.Client, opts ...Option) *Runner] *)
Definition New (c : K8sClient) (opts : list Option) : Runner :=
  let s := mkState None c zeroLogger in
  mkRunner [] (foldl (λ s opt, opt s) s opts).

(** [func (r *Runner) AddHandlers(handler ...Handler)] *)
Definition AddHandlers (r : Runner) (handler : list Handler) : Runner :=
  mkRunner (handlers r ++ handler) (state r).

(** ** Observations on the events of a run *)

(** The handlers that were called, in the order of the calls. *)
Fixpoint executed (tr : list Event) : list nat :=
  match tr with
  | [] => []
  | EvEnter i :: tr' => i :: executed tr'
  | _ :: tr' => executed tr'
  end.

(** Handler [i] called [Stop()] during the run. *)
Definition calls_Stop (tr : list Event) (i : nat) : Prop := EvStop i ∈ tr.

(** Handler [i] returned [e] during the run. *)
Definition returns (tr : list Event) (i : nat) (e : error) : Prop :=
  EvLeave i e ∈ tr.

(** The assignments to the field [stop] made during the run. *)
Fixpoint bindings (tr : list Event) : list CancelFunc :=
  match tr with
  | [] => []
  | EvBind c :: tr' => c :: bindings tr'
  | _ :: tr' => bindings tr'
  end.

(** The events of one call of handler [i]: it is entered, calls
    [Stop()] [n] times and leaves with [e]. *)
Definition segment (i n : nat) (e : error) : list Event :=
  EvEnter i :: replicate n (EvStop i) ++ [EvLeave i e].

(** What holds of the state and the memory while the loop of [Run]
    executes: the field [stop] holds the cancel function [c] of a context
    that exists. *)
Definition bound (c : CancelFunc) (s : State) (m : Mem) : Prop :=
  stop s = Some c ∧ c < length (flags m).

(** The handler an event belongs to. *)
Definition handler_of (ev : Event) : option nat :=
  match ev with
  | EvBind _ => None
  | EvEnter i | EvStop i | EvLeave i _ => Some i
  end.

(** What can happen to the flags while handlers run: no context is
    made, and a flag that is set stays set. *)
Definition grows (fl fl' : Flags) : Prop :=
  length fl' = length fl ∧ ∀ c, flag fl c = true → flag fl' c = true.

(** Whether [ctx] is done in the memory a computation leaves. *)
Definition done_after {A} (o : Res A) (ctx : Context) : bool :=
  match o with
  | Ok _ _ m _ => Done (flags m) ctx
  | Panic => true
  end.

(** The code of a handler during which no context is cancelled but
    through [Stop()]. *)
Inductive no_cancel {A} : Prog A → Prop :=
| no_cancel_Return a : no_cancel (Return a)
| no_cancel_CallStop k : no_cancel k → no_cancel (CallStop k)
| no_cancel_CallLog k : (∀ l, no_cancel (k l)) → no_cancel (CallLog k)
| no_cancel_CallClient k : (∀ c, no_cancel (k c)) → no_cancel (CallClient k)
| no_cancel_CtxDone ctx k : (∀ d, no_cancel (k d)) → no_cancel (CtxDone ctx k)
| no_cancel_ExtGet k : (∀ x, no_cancel (k x)) → no_cancel (ExtGet k)
| no_cancel_ExtPut x k : no_cancel k → no_cancel (ExtPut x k).

Definition quiet (h : Handler) : Prop := ∀ ctx, no_cancel (Handle h ctx).

(** The events the loop can go through over [k] handlers from position
    [i] on; [d] tells whether the context is done when the loop gets to
    position [i], [e] is what the loop returns. After a handler that
    called [Stop()] the context is done; after another one it may be. *)
Inductive loop_trace : nat → nat → bool → error → list Event → Prop :=
| loop_trace_end i d :
    loop_trace i 0 d None []
| loop_trace_skip i k :
    loop_trace i k true None []
| loop_trace_abort i k n e :
    loop_trace i (S k) false (Some e) (segment i n (Some e))
| loop_trace_next i k n d e tr :
    (0 < n → d = true) →
    loop_trace (S i) k d e tr →
    loop_trace i (S k) false e (segment i n None ++ tr).

(** ** Handlers used in the examples *)

(** A handler that does nothing (the [exampleFunc] of the tests, without
    its printing). *)
Definition noop : HandlerFunc := λ _, Return None.

(** A handler that returns the error [e]. *)
Definition failing (e : Err) : HandlerFunc := λ _, Return (Some e).

(** A handler that requests the stop of the pipeline and returns [ret]
    (with [defer s.Stop()], the shape of [FinalizerHandler] and
    [DeletionHandler] of the tests, whose update or deletion gives
    [ret]). *)
Definition stopping (ret : error) : HandlerFunc :=
  λ _, CallStop (Return ret).

(** A handler whose closure holds the cancel function [c], and calls it. *)
Definition cancelling (c : CancelFunc) : HandlerFunc :=
  λ _, CtxCancel c (Return None).

(** A handler that calls [Stop()] [n] times before it returns [ret]. *)
Definition stopping_n (n : nat) (ret : error) : HandlerFunc :=
  λ _, Nat.iter n CallStop (Return ret).

(** A runner made as the tests make theirs: [New] without options, then
    one call of [AddHandlers]. *)
Definition pipeline (c : K8sClient) (hs : list HandlerFunc) : Runner :=
  AddHandlers (New c []) (HandlerFunc_Handler <$> hs).

(** The memory before any context was made, and the memory in which the
    caller made one cancellable context, [cancelCtx Background 0], and
    cancelled it. *)
Definition fresh_mem (x : Ext) : Mem := mkMem [] x.
Definition cancelled_mem (x : Ext) : Mem := mkMem [true] x.

(** A runner with a stopping handler before the handlers of [r]. *)
Definition stop_first (r : Runner) : Runner :=
  mkRunner (HandlerFunc_Handler (stopping None) :: handlers r) (state r).

(** ** Handlers with the repeated calls of Stop removed *)

(** [once b p] is [p] without its calls of [Stop()] that come after a
    first one; [b] tells whether a call has already been made. *)
Fixpoint once {A} (b : bool) (p : Prog A) : Prog A :=
  match p with
  | Return a => Return a
  | CallStop k => if b then once true k else CallStop (once true k)
  | CallLog k => CallLog (λ l, once b (k l))
  | CallClient k => CallClient (λ c, once b (k c))
  | CtxDone ctx k => CtxDone ctx (λ d, once b (k d))
  | CtxCancel c k => CtxCancel c (once b k)
  | ExtGet k => ExtGet (λ x, once b (k x))
  | ExtPut x k => ExtPut x (once b k)
  end.

Definition once_handler (h : Handler) : Handler :=
  mkHandler (λ ctx, once false (Handle h ctx)).

Definition once_runner (r : Runner) : Runner :=
  mkRunner (once_handler <$> handlers r) (state r).

(** ** Contexts that exist, and handlers seen from the pipeline *)

(** Every context of the chain of [ctx] was made before: its cell is one
    of [fl]. *)
Fixpoint allocated (fl : Flags) (ctx : Context) : bool :=
  match ctx with
  | Background => true
  | cancelCtx parent c => bool_decide (c < length fl) && allocated fl parent
  end.

#[global] Instance Context_eq_dec : EqDecision Context.
Proof. solve_decision. Defined.

(** [inline l c p] is [p] with the logger [l] in the place of its calls
    of [s.Log()] and the client [c] in the place of its calls of
    [s.Client()]. *)
Fixpoint inline {A} (l : Logger) (c : K8sClient) (p : Prog A) : Prog A :=
  match p with
  | Return a => Return a
  | CallStop k => CallStop (inline l c k)
  | CallLog k => inline l c (k l)
  | CallClient k => inline l c (k c)
  | CtxDone ctx k => CtxDone ctx (λ d, inline l c (k d))
  | CtxCancel c' k => CtxCancel c' (inline l c k)
  | ExtGet k => ExtGet (λ x, inline l c (k x))
  | ExtPut x k => ExtPut x (inline l c k)
  end.

Definition inline_runner (r : Runner) : Runner :=
  mkRunner
    ((λ h, mkHandler (λ ctx, inline (log (state r)) (client (state r))
                                    (Handle h ctx))) <$> handlers r)
    (state r).

(** [resolve own b p] is [p] with the answer "done" in the place of the
    tests of the context [own] that [p] makes once it has called
    [Stop()]; [b] tells whether a call has already been made. *)
Fixpoint resolve {A} (own : Context) (b : bool) (p : Prog A) : Prog A :=
  match p with
  | Return a => Return a
  | CallStop k => CallStop (resolve own true k)
  | CallLog k => CallLog (λ l, resolve own b (k l))
  | CallClient k => CallClient (λ c, resolve own b (k c))
  | CtxDone ctx k =>
      if b && bool_decide (ctx = own) then resolve own b (k true)
      else CtxDone ctx (λ d, resolve own b (k d))
  | CtxCancel c k => CtxCancel c (resolve own b k)
  | ExtGet k => ExtGet (λ x, resolve own b (k x))
  | ExtPut x k => ExtPut x (resolve own b k)
  end.

(** The handlers of [r], each with the tests of the context it is given
    that come after its own call of [Stop()] resolved. *)
Definition resolve_runner (r : Runner) : Runner :=
  mkRunner
    ((λ h, mkHandler (λ ctx, resolve ctx false (Handle h ctx))) <$> handlers r)
    (state r).

(** ** The handlers of the tests

    [FinalizerHandler] and [DeletionHandler] work on a Kubernetes object
    through a pointer and call controller-runtime, the client and the
    logger. The object, the API server behind the client and what the
    logger and [fmt.Println] write are parts of [Ext]; [Obj] is the type
    of the pointers. The functions of the collaborators are taken as they
    come, as the fields of [Kube]: [Update] and [Delete] get the client,
    whether the context they are called with is done, and the object,
    and give an error back. *)
Record Kube : Type := mkKube {
  Obj : Type;
  Time : Type;
  ContainsFinalizer : Obj → string → Ext → bool;
  AddFinalizer : Obj → string → Ext → Ext;
  RemoveFinalizer : Obj → string → Ext → Ext;
  GetDeletionTimestamp : Obj → Ext → option Time;
  Update : K8sClient → bool → Obj → Ext → error * Ext;
  Delete : K8sClient → bool → Obj → Ext → error * Ext;
  Info : Logger → string → Ext → Ext;
  Println : string → Ext → Ext
}.

(** A call that changes the captured data, and one that also gives a
    value back. *)
Definition ext_do {A} (f : Ext → Ext) (k : Prog A) : Prog A :=
  ExtGet (λ x, ExtPut (f x) k).

Definition ext_call {A B} (f : Ext → B * Ext) (k : B → Prog A) : Prog A :=
  ExtGet (λ x, ExtPut (snd (f x)) (k (fst (f x)))).

(** [func FinalizerHandler(obj client.Object, key string) HandlerFunc].
    The deferred [s.Stop()] runs once the value to return is there, that
    is after [Update]. *)
Definition FinalizerHandler (K : Kube) (obj : Obj K) (key : string)
  : HandlerFunc :=
  λ ctx,
    ExtGet (λ x,
      if negb (ContainsFinalizer K obj key x) then
        CallLog (λ l,
        ext_do (Info K l "deletion finalizer not found, adding")
        (ext_do (AddFinalizer K obj key)
        (CallClient (λ c,
         CtxDone ctx (λ d,
         ext_call (Update K c d obj) (λ err,
         CallStop (Return err)))))))
      else Return None).

(** [func DeletionHandler(obj client.Object, final string) HandlerFunc] *)
Definition DeletionHandler (K : Kube) (obj : Obj K) (final : string)
  : HandlerFunc :=
  λ ctx,
    ExtGet (λ x,
      match GetDeletionTimestamp K obj x with
      | None => Return None
      | Some _ =>
          CallLog (λ l,
          ext_do (Info K l "resource is in deletion. Removing finalizer")
          (ext_do (RemoveFinalizer K obj final)
          (CallClient (λ c,
           CtxDone ctx (λ d,
           ext_call (Delete K c d obj) (λ err,
           CallStop (Return err)))))))
      end).

(** The [exampleFunc] of [TestState_Run]. *)
Definition exampleFunc (K : Kube) (text : string) : HandlerFunc :=
  λ _, ext_do (Println K text) (Return None).

(** The runner [TestState_Run] makes for the object [rule]:
    [New(c, WithLogger(l))], then the five handlers. *)
Definition TestState_Run_runner (K : Kube) (c : K8sClient) (l : Logger)
    (rule : Obj K) : Runner :=
  AddHandlers (New c [WithLogger l])
    (HandlerFunc_Handler <$>
       [FinalizerHandler K rule "finalizer";
        DeletionHandler K rule "finalizer";
        exampleFunc K "Mama, just killed a man.";
        exampleFunc K "Put a gun against his head.";
        exampleFunc K "Pulled my trigger, now he's dead."]).


(** ** Facts on contexts *)

Lemma cancel_length c fl : length (cancel c fl) = length fl.
Proof. unfold cancel. destruct (flag fl c); [done|]. apply length_insert. Qed.

Lemma flag_cancel c fl : c < length fl → flag (cancel c fl) c = true.
Proof.
  intros Hc. unfold cancel. destruct (flag fl c) eqn:E; [done|].
  unfold flag. by rewrite list_lookup_insert_eq.
Qed.

Lemma cancel_set c fl : flag fl c = true → cancel c fl = fl.
Proof. unfold cancel. by intros ->. Qed.

Lemma cancel_cancel c fl : cancel c (cancel c fl) = cancel c fl.
Proof.
  destruct (decide (c < length fl)) as [Hc|Hc].
  - apply cancel_set, flag_cancel, Hc.
  - unfold cancel. destruct (flag fl c) eqn:E; rewrite ?E; [done|].
    rewrite (list_insert_ge fl), E by lia. by apply list_insert_ge; lia.
Qed.

Lemma Done_cancel p c fl :
  c < length fl → Done (cancel c fl) (cancelCtx p c) = true.
Proof. intros Hc. simpl. by rewrite flag_cancel. Qed.

Lemma flag_fresh fl : flag (fl ++ [false]) (length fl) = false.
Proof. unfold flag. by rewrite lookup_app_r, Nat.sub_diag by lia. Qed.

Lemma flag_alloc fl c : flag (fl ++ [false]) c = flag fl c.
Proof.
  unfold flag. destruct (decide (c < length fl)) as [Hc|Hc].
  - by rewrite lookup_app_l.
  - rewrite (lookup_ge_None_2 fl) by lia.
    rewrite lookup_app_r by lia.
    by destruct (c - length fl) as [|[|?]].
Qed.

Lemma Done_alloc fl ctx : Done (fl ++ [false]) ctx = Done fl ctx.
Proof. induction ctx as [|p IH c]; simpl; [done|]. by rewrite flag_alloc, IH. Qed.

Lemma flag_lt fl c : flag fl c = true → c < length fl.
Proof.
  unfold flag. intros H. apply lookup_lt_is_Some.
  by destruct (fl !! c).
Qed.

Lemma flag_cancel_ne c c' fl : c' ≠ c → flag (cancel c fl) c' = flag fl c'.
Proof.
  intros Hne. unfold cancel. destruct (flag fl c); [done|].
  unfold flag. by rewrite list_lookup_insert_ne.
Qed.

Lemma grows_refl fl : grows fl fl.
Proof. by split. Qed.

Lemma grows_trans fl1 fl2 fl3 : grows fl1 fl2 → grows fl2 fl3 → grows fl1 fl3.
Proof. intros [H1 H1'] [H2 H2']. split; [congruence|auto]. Qed.

Lemma grows_cancel c fl : grows fl (cancel c fl).
Proof.
  split; [apply cancel_length|]. intros c' Hc'.
  destruct (decide (c' = c)) as [->|Hne].
  - by apply flag_cancel, flag_lt.
  - by rewrite flag_cancel_ne.
Qed.

Lemma Done_grows fl fl' ctx : grows fl fl' → Done fl ctx = true → Done fl' ctx = true.
Proof.
  intros [_ Hg]. induction ctx as [|p IH c]; simpl; [done|].
  intros [H|H]%orb_true_iff.
  - by rewrite (Hg c H).
  - by rewrite IH, orb_true_r.
Qed.

(** ** Facts on the events *)

Lemma executed_app tr1 tr2 : executed (tr1 ++ tr2) = executed tr1 ++ executed tr2.
Proof.
  induction tr1 as [|[] tr1 IH]; simpl; rewrite ?IH; done.
Qed.

Lemma executed_stops n i : executed (replicate n (EvStop i)) = [].
Proof. induction n; simpl; done. Qed.

Lemma bindings_app tr1 tr2 : bindings (tr1 ++ tr2) = bindings tr1 ++ bindings tr2.
Proof.
  induction tr1 as [|[] tr1 IH]; simpl; rewrite ?IH; done.
Qed.

Lemma bindings_stops n i : bindings (replicate n (EvStop i)) = [].
Proof. induction n; simpl; done. Qed.

Lemma executed_segment i n e tr : executed (segment i n e ++ tr) = i :: executed tr.
Proof.
  unfold segment. simpl. by rewrite !executed_app, executed_stops.
Qed.

Lemma bindings_segment i n e tr : bindings (segment i n e ++ tr) = bindings tr.
Proof.
  unfold segment. simpl. by rewrite !bindings_app, bindings_stops.
Qed.

Lemma elem_of_segment ev i n e tr :
  ev ∈ segment i n e ++ tr ↔
  ev = EvEnter i ∨ (0 < n ∧ ev = EvStop i) ∨ ev = EvLeave i e ∨ ev ∈ tr.
Proof.
  unfold segment. simpl.
  rewrite elem_of_cons, !elem_of_app, elem_of_replicate, list_elem_of_singleton.
  split; [intros [?|[[[? ?]|?]|?]]|intros [?|[[? ?]|[?|?]]]]; eauto 6 with lia.
Qed.

(** ** One handler *)

Ltac unfold_M := unfold mbind, M_bind, mret, M_ret, emit, Log, Client, Stop.

(** A handler leaves the state of the runner as it is and never panics
    once [stop] is assigned; the flags grow, and the one of [stop] is
    set after it exactly if it was set before or the handler called
    [Stop()]. *)
Lemma exec_spec {A} i (p : Prog A) s m c :
  bound c s m →
  ∃ a m' n,
    exec i p s m = Ok a s m' (replicate n (EvStop i)) ∧
    bound c s m' ∧
    grows (flags m) (flags m') ∧
    (flag (flags m') c = true ↔ flag (flags m) c = true ∨ 0 < n).
Proof.
  revert m.
  induction p as [a|k IH|k IH|k IH|ctx k IH|c' k IH|k IH|x k IH];
    intros m Hb; simpl.
  - exists a, m, 0. split; [done|]. split; [done|]. split; [apply grows_refl|].
    split; [auto|intros [?|?]; [done|lia]].
  - destruct Hb as [Hs Hc]. unfold_M. rewrite Hs.
    destruct (IH (mkMem (cancel c (flags m)) (ext m)))
      as (a & m' & n & -> & Hb' & Hg & Hf).
    { split; [done|]. simpl. by rewrite cancel_length. }
    exists a, m', (S n). split; [done|]. split; [done|]. simpl in Hg, Hf. split.
    + eapply grows_trans; [apply grows_cancel|done].
    + split; [intros _; right; lia|]. intros _. apply Hf. left.
      by apply flag_cancel.
  - unfold_M. destruct (IH (log s) m Hb) as (a & m' & n & -> & ?).
    by exists a, m', n.
  - unfold_M. destruct (IH (client s) m Hb) as (a & m' & n & -> & ?).
    by exists a, m', n.
  - by apply IH.
  - case_decide as Hc'; [by apply IH|].
    destruct (IH (mkMem (cancel c' (flags m)) (ext m)))
      as (a & m' & n & -> & Hb' & Hg & Hf).
    { destruct Hb as [Hs Hc]. split; [done|]. simpl. by rewrite cancel_length. }
    exists a, m', n. split; [done|]. split; [done|]. simpl in Hg, Hf. split.
    + eapply grows_trans; [apply grows_cancel|done].
    + rewrite Hf, flag_cancel_ne; [done|].
      intros ->. by destruct Hb as [Hs _].
  - by apply IH.
  - destruct (IH (mkMem (flags m) x)) as (a & m' & n & -> & ?); [done|].
    by exists a, m', n.
Qed.

(** ** The loop *)

Lemma loop_done ctx hs i s m :
  Done (flags m) ctx = true → loop ctx hs i s m = Ok None s m [].
Proof.
  intros Hd. revert i. induction hs as [|h hs IH]; intros i; simpl; [done|].
  rewrite Hd. apply IH.
Qed.

(** One turn of the loop on a live context. *)
Lemma loop_live p c h hs i s m :
  bound c s m → Done (flags m) (cancelCtx p c) = false →
  ∃ err m1 n,
    exec i (Handle h (cancelCtx p c)) s m = Ok err s m1 (replicate n (EvStop i)) ∧
    bound c s m1 ∧
    grows (flags m) (flags m1) ∧
    (flag (flags m1) c = true ↔ 0 < n) ∧
    loop (cancelCtx p c) (h :: hs) i s m =
      match err with
      | Some e => Ok (Some e) s m1 (segment i n (Some e))
      | None =>
          match loop (cancelCtx p c) hs (S i) s m1 with
          | Ok e s' m' tr => Ok e s' m' (segment i n None ++ tr)
          | Panic => Panic
          end
      end.
Proof.
  intros Hb Hd.
  destruct (exec_spec i (Handle h (cancelCtx p c)) s m c Hb)
    as (err & m1 & n & He & Hb1 & Hg & Hf).
  exists err, m1, n. split; [done|]. split; [done|]. split; [done|]. split.
  - rewrite Hf. simpl in Hd. apply orb_false_iff in Hd as [-> _].
    split; [by intros [?|?]|auto].
  - cbn [loop]. rewrite Hd. unfold_M. rewrite He. unfold segment.
    destruct err as [e|]; simpl.
    + done.
    + destruct (loop _ hs (S i) s m1); [|done].
      by rewrite <- app_assoc.
Qed.

(** The loop never panics, leaves the state of the runner as it is, and
    goes through the events of [loop_trace]. *)
Lemma loop_shape p c hs i s m :
  bound c s m →
  ∃ e m' tr,
    loop (cancelCtx p c) hs i s m = Ok e s m' tr ∧
    loop_trace i (length hs) (Done (flags m) (cancelCtx p c)) e tr.
Proof.
  revert i m. induction hs as [|h hs IH]; intros i m Hb.
  - exists None, m, []. split; [done|constructor].
  - destruct (Done (flags m) (cancelCtx p c)) eqn:Hd.
    + rewrite loop_done by done. exists None, m, []. split; [done|constructor].
    + destruct (loop_live p c h hs i s m Hb Hd)
        as (err & m1 & n & _ & Hb1 & _ & Hn & ->).
      destruct err as [e|].
      { eexists _, _, _. split; [done|constructor]. }
      destruct (IH (S i) m1 Hb1) as (e & m' & tr & -> & Htr).
      eexists _, _, _. split; [done|]. simpl.
      eapply loop_trace_next; [|exact Htr].
      intros H. simpl. by rewrite (proj2 Hn H).
Qed.

(** ** What the events of the loop tell *)

Lemma elem_of_segment_only ev i n e :
  ev ∈ segment i n e ↔
  ev = EvEnter i ∨ (0 < n ∧ ev = EvStop i) ∨ ev = EvLeave i e.
Proof.
  rewrite <- (app_nil_r (segment i n e)), elem_of_segment, elem_of_nil. tauto.
Qed.

Lemma executed_segment_only i n e : executed (segment i n e) = [i].
Proof. by rewrite <- (app_nil_r (segment i n e)), executed_segment. Qed.

Lemma bindings_segment_only i n e : bindings (segment i n e) = [].
Proof. by rewrite <- (app_nil_r (segment i n e)), bindings_segment. Qed.

Lemma loop_trace_done i k e tr : loop_trace i k true e tr → e = None ∧ tr = [].
Proof. by inversion 1. Qed.

(** Every event of the loop belongs to one of its [k] handlers. *)
Lemma loop_trace_handler i k d e tr ev :
  loop_trace i k d e tr → ev ∈ tr →
  ∃ j, handler_of ev = Some j ∧ i ≤ j < i + k.
Proof.
  induction 1 as [i d|i k|i k n e|i k n d e tr _ _ IH]; intros Hev.
  - by apply elem_of_nil in Hev.
  - by apply elem_of_nil in Hev.
  - apply elem_of_segment_only in Hev as [->|[[_ ->]| ->]];
      exists i; (split; [done|lia]).
  - apply elem_of_segment in Hev as [->|[[_ ->]|[->|Hev]]];
      try (exists i; (split; [done|lia])).
    destruct (IH Hev) as (j & ? & ?). exists j. split; [done|lia].
Qed.

Lemma loop_trace_bindings i k d e tr : loop_trace i k d e tr → bindings tr = [].
Proof.
  induction 1; rewrite ?bindings_segment_only, ?bindings_segment; done.
Qed.

(** A handler that returned an error was the last one to be called, and
    the loop returned its error. *)
Lemma loop_trace_error i k d e tr j E :
  loop_trace i k d e tr → EvLeave j (Some E) ∈ tr →
  e = Some E ∧ executed tr = seq i (S j - i).
Proof.
  induction 1 as [i d|i k|i k n e|i k n d e tr _ Htr IH]; intros Hev.
  - by apply elem_of_nil in Hev.
  - by apply elem_of_nil in Hev.
  - apply elem_of_segment_only in Hev as [?|[[_ ?]|[= -> ->]]]; try done.
    rewrite executed_segment_only. by replace (S i - i) with 1 by lia.
  - apply elem_of_segment in Hev as [?|[[_ ?]|[?|Hev]]]; try done.
    destruct (loop_trace_handler _ _ _ _ _ _ Htr Hev) as (j' & [= <-] & ?).
    destruct (IH Hev) as [-> Hex]. split; [done|].
    rewrite executed_segment, Hex.
    by replace (S j - i) with (S (S j - S i)) by lia.
Qed.

(** A handler that called [Stop()] and returned [nil] was the last one to
    be called: the events end with its own, and the loop returned [nil]. *)
Lemma loop_trace_stop i k d e tr j :
  loop_trace i k d e tr → EvStop j ∈ tr → EvLeave j None ∈ tr →
  e = None ∧ executed tr = seq i (S j - i) ∧
  ∃ pre n, 0 < n ∧ tr = pre ++ segment j n None.
Proof.
  induction 1 as [i d|i k|i k n e|i k n d e tr Hd Htr IH]; intros Hst Hlv.
  - by apply elem_of_nil in Hst.
  - by apply elem_of_nil in Hst.
  - by apply elem_of_segment_only in Hlv as [?|[[_ ?]|?]].
  - apply elem_of_segment in Hst as [?|[[Hn [= ->]]|[?|Hst]]]; try done.
    + rewrite (Hd Hn) in Htr.
      apply loop_trace_done in Htr as [-> ->].
      rewrite app_nil_r, executed_segment_only.
      replace (S i - i) with 1 by lia.
      repeat split; [done..|]. by exists [], n.
    + destruct (loop_trace_handler _ _ _ _ _ _ Htr Hst) as (j' & [= <-] & ?).
      apply elem_of_segment in Hlv as [?|[[_ ?]|[?|Hlv]]]; try done.
      { simplify_eq. lia. }
      destruct (IH Hst Hlv) as (-> & Hex & pre & n' & Hn' & ->).
      rewrite executed_segment, Hex.
      replace (S j - i) with (S (S j - S i)) by lia.
      repeat split; [done..|].
      exists (segment i n None ++ pre), n'. by rewrite <- app_assoc.
Qed.

Lemma stop_in_segment j i n e tr :
  EvStop j ∈ segment i n e ++ tr ↔ (0 < n ∧ j = i) ∨ EvStop j ∈ tr.
Proof.
  rewrite elem_of_segment. split.
  - intros [?|[[? [= ->]]|[?|?]]]; try done; auto.
  - intros [[? ->]|?]; auto.
Qed.

(** The flags grow along the loop, and the one of [stop] is set after it
    exactly if it was set before or a handler called [Stop()]. *)
Lemma loop_flags p c hs i s m e s' m' tr :
  bound c s m →
  loop (cancelCtx p c) hs i s m = Ok e s' m' tr →
  bound c s' m' ∧
  grows (flags m) (flags m') ∧
  (flag (flags m') c = true ↔ flag (flags m) c = true ∨ ∃ j, EvStop j ∈ tr).
Proof.
  revert i m e s' m' tr. induction hs as [|h hs IH]; intros i m e s' m' tr Hb.
  - intros [= <- <- <- <-]. split; [done|]. split; [apply grows_refl|].
    split; [auto|]. intros [?|[j Hj]]; [done|]. by apply elem_of_nil in Hj.
  - destruct (Done (flags m) (cancelCtx p c)) eqn:Hd.
    { rewrite loop_done by done. intros [= <- <- <- <-].
      split; [done|]. split; [apply grows_refl|].
      split; [auto|]. intros [?|[j Hj]]; [done|]. by apply elem_of_nil in Hj. }
    destruct (loop_live p c h hs i s m Hb Hd)
      as (err & m1 & n & _ & Hb1 & Hg & Hf & ->).
    assert (flag (flags m) c = false) as Hfc.
    { simpl in Hd. by apply orb_false_iff in Hd as [? _]. }
    rewrite Hfc.
    destruct err as [E|].
    + intros [= <- <- <- <-]. split; [done|]. split; [done|].
      rewrite Hf. split.
      * intros Hn. right. exists i. apply elem_of_segment_only. auto.
      * intros [?|[j [?|[[? _]|?]]%elem_of_segment_only]]; done.
    + destruct (loop (cancelCtx p c) hs (S i) s m1) as [e2 s2 m2 tr2|] eqn:Hl;
        [|done].
      intros [= <- <- <- <-].
      destruct (IH _ _ _ _ _ _ Hb1 Hl) as (Hb2 & Hg2 & Hf2).
      split; [done|]. split; [by eapply grows_trans|].
      rewrite Hf2, Hf. split.
      * intros [Hn|[j Hj]]; right.
        -- exists i. apply stop_in_segment. auto.
        -- exists j. apply stop_in_segment. auto.
      * intros [?|[j [[? _]|?]%stop_in_segment]]; [done|auto|eauto].
Qed.

(** When the context is still live after the loop and no handler
    failed, all the handlers were called, one after the other. *)
Lemma loop_complete p c hs i s m e s' m' tr :
  bound c s m →
  loop (cancelCtx p c) hs i s m = Ok e s' m' tr →
  Done (flags m') (cancelCtx p c) = false →
  (∀ j E, EvLeave j (Some E) ∉ tr) →
  e = None ∧ executed tr = seq i (length hs).
Proof.
  revert i m e s' m' tr. induction hs as [|h hs IH]; intros i m e s' m' tr Hb.
  - by intros [= <- <- <- <-].
  - destruct (Done (flags m) (cancelCtx p c)) eqn:Hd.
    { rewrite loop_done by done. intros [= <- <- <- <-]. congruence. }
    destruct (loop_live p c h hs i s m Hb Hd)
      as (err & m1 & n & _ & Hb1 & _ & _ & ->).
    destruct err as [E|].
    + intros [= <- <- <- <-] _ Herr.
      destruct (Herr i E). apply (elem_of_segment_only _ i n (Some E)). auto.
    + destruct (loop (cancelCtx p c) hs (S i) s m1) as [e2 s2 m2 tr2|] eqn:Hl;
        [|done].
      intros [= <- <- <- <-] Hd' Herr.
      destruct (IH _ _ _ _ _ _ Hb1 Hl Hd') as [-> Hex].
      { intros j E Hj. apply (Herr j E), (elem_of_segment _ i n None tr2).
        auto. }
      split; [done|].
      etransitivity; [apply (executed_segment i n None tr2)|]. by rewrite Hex.
Qed.

(** ** Run *)

(** [Run] is the assignment of [stop] followed by the loop, on a state
    and a memory in which [stop] is assigned. *)
Lemma Run_loop r ctx m :
  bound (length (flags m))
        (mkState (Some (length (flags m))) (client (state r)) (log (state r)))
        (mkMem (flags m ++ [false]) (ext m)) ∧
  Run r ctx m =
  match loop (cancelCtx ctx (length (flags m))) (handlers r) 0
             (mkState (Some (length (flags m))) (client (state r)) (log (state r)))
             (mkMem (flags m ++ [false]) (ext m)) with
  | Ok e s' m' tr => Ok e s' m' (EvBind (length (flags m)) :: tr)
  | Panic => Panic
  end.
Proof.
  split; [|done]. split; [done|]. simpl. rewrite length_app. simpl. lia.
Qed.

(** [Run] assigns [stop], then loops; it never panics. *)
Lemma Run_shape r ctx m :
  ∃ e m' tr,
    Run r ctx m =
      Ok e (mkState (Some (length (flags m))) (client (state r)) (log (state r)))
         m' (EvBind (length (flags m)) :: tr) ∧
    loop_trace 0 (length (handlers r)) (Done (flags m) ctx) e tr.
Proof.
  cbv beta iota zeta delta [Run WithCancel]. unfold_M.
  lazymatch goal with
  | |- context [loop _ _ _ ?s0 ?m0] =>
      destruct (loop_shape ctx (length (flags m)) (handlers r) 0 s0 m0)
        as (e & m' & tr & -> & Htr)
  end.
  { split; [done|]. simpl. rewrite length_app. simpl. lia. }
  exists e, m', tr. split; [done|].
  simpl in Htr. by rewrite flag_fresh, Done_alloc in Htr.
Qed.

(** C1: if handler [i] calls [Stop()] and returns [nil], and no earlier
    handler returned an error or called [Stop()], then [Run] returns
    [nil], the handlers up to [i] are the ones that were executed, and
    the events of the run end with those of handler [i], which ran to its
    return: no handler after [i] is executed. *)
Theorem Run_stop_returns_nil r ctx m i :
  calls_Stop (trace (Run r ctx m)) i →
  returns (trace (Run r ctx m)) i None →
  (∀ j, j < i →
        ¬ calls_Stop (trace (Run r ctx m)) j ∧
        ∀ E, ¬ returns (trace (Run r ctx m)) j (Some E)) →
  result (Run r ctx m) = Some None ∧
  executed (trace (Run r ctx m)) = seq 0 (S i) ∧
  ∃ pre n, 0 < n ∧ trace (Run r ctx m) = pre ++ segment i n None.
Proof.
  unfold calls_Stop, returns.
  destruct (Run_shape r ctx m) as (e & m' & tr & -> & Htr). simpl.
  intros Hst Hlv _.
  apply elem_of_cons in Hst as [?|Hst]; [done|].
  apply elem_of_cons in Hlv as [?|Hlv]; [done|].
  destruct (loop_trace_stop _ _ _ _ _ _ Htr Hst Hlv) as (-> & Hex & pre & n & Hn & ->).
  rewrite Nat.sub_0_r in Hex. repeat split; [done..|].
  by exists (EvBind (length (flags m)) :: pre), n.
Qed.

(** C2: if handler [i] returns the error [E], and no earlier handler
    returned an error or called [Stop()], then [Run] returns [E] itself
    and the handlers up to [i] are the ones that were executed. *)
Theorem Run_error_returned r ctx m i E :
  returns (trace (Run r ctx m)) i (Some E) →
  (∀ j, j < i →
        ¬ calls_Stop (trace (Run r ctx m)) j ∧
        ∀ E', ¬ returns (trace (Run r ctx m)) j (Some E')) →
  result (Run r ctx m) = Some (Some E) ∧
  executed (trace (Run r ctx m)) = seq 0 (S i).
Proof.
  unfold calls_Stop, returns.
  destruct (Run_shape r ctx m) as (e & m' & tr & -> & Htr). simpl.
  intros Hlv _.
  apply elem_of_cons in Hlv as [?|Hlv]; [done|].
  destruct (loop_trace_error _ _ _ _ _ _ _ Htr Hlv) as (-> & Hex).
  by rewrite Nat.sub_0_r in Hex.
Qed.

(** C3, amended: when the context given to [Run] is not done already
    and does not become done while [Run] executes (it is still not done
    when [Run] returns), and no handler returns an error or calls
    [Stop()], [Run] returns [nil] and every handler is executed once, in
    the order of [r.handlers]. *)
Theorem Run_complete r ctx m :
  Done (flags m) ctx = false →
  done_after (Run r ctx m) ctx = false →
  (∀ j, ¬ calls_Stop (trace (Run r ctx m)) j) →
  (∀ j E, ¬ returns (trace (Run r ctx m)) j (Some E)) →
  result (Run r ctx m) = Some None ∧
  executed (trace (Run r ctx m)) = seq 0 (length (handlers r)).
Proof.
  unfold calls_Stop, returns.
  destruct (Run_loop r ctx m) as [Hb ->].
  destruct (loop _ (handlers r) 0 _ _) as [e s' m' tr|] eqn:Hl; [|done].
  simpl. intros _ Hd' Hst Herr.
  destruct (loop_flags _ _ _ _ _ _ _ _ _ _ Hb Hl) as (_ & _ & Hf).
  destruct (loop_complete _ _ _ _ _ _ _ _ _ _ Hb Hl) as [-> Hex]; [..|done].
  - simpl. rewrite Hd', orb_false_r. apply not_true_is_false.
    rewrite Hf. simpl. rewrite flag_fresh. intros [?|[j Hj]]; [done|].
    apply (Hst j). by right.
  - intros j E Hj. apply (Herr j E). by right.
Qed.

(** C6: in every call of [Run] the field [stop] is assigned once, and
    that assignment is the first thing that happens: it comes before the
    call of any handler. What is assigned is the cancel function of the
    context derived in this call, and it is still there when [Run]
    returns. *)
Theorem Run_binds_stop_once r ctx m :
  ∃ e s' m' tr,
    Run r ctx m = Ok e s' m' (EvBind (length (flags m)) :: tr) ∧
    bindings tr = [] ∧
    bindings (trace (Run r ctx m)) = [length (flags m)] ∧
    stop s' = Some (length (flags m)).
Proof.
  destruct (Run_shape r ctx m) as (e & m' & tr & Hrun & Htr).
  pose proof (loop_trace_bindings _ _ _ _ _ Htr) as Hb.
  eexists e, _, m', tr. rewrite Hrun. simpl. by rewrite Hb.
Qed.

(** C10: if a handler calls [Stop()] and returns the error [E], [Run]
    returns [E], and the handlers after it are not executed. *)
Theorem Run_error_wins_over_stop r ctx m i E :
  calls_Stop (trace (Run r ctx m)) i →
  returns (trace (Run r ctx m)) i (Some E) →
  result (Run r ctx m) = Some (Some E) ∧
  executed (trace (Run r ctx m)) = seq 0 (S i).
Proof.
  unfold calls_Stop, returns.
  destruct (Run_shape r ctx m) as (e & m' & tr & -> & Htr). simpl.
  intros _ Hlv.
  apply elem_of_cons in Hlv as [?|Hlv]; [done|].
  destruct (loop_trace_error _ _ _ _ _ _ _ Htr Hlv) as (-> & Hex).
  by rewrite Nat.sub_0_r in Hex.
Qed.

(** ** A context that is done before Run *)

Lemma Run_done r ctx m :
  Done (flags m) ctx = true →
  Run r ctx m =
    Ok None (mkState (Some (length (flags m))) (client (state r)) (log (state r)))
       (mkMem (flags m ++ [false]) (ext m)) [EvBind (length (flags m))].
Proof.
  intros Hd. cbv beta iota zeta delta [Run WithCancel]. unfold_M.
  rewrite loop_done; [done|].
  simpl. by rewrite Done_alloc, Hd, orb_true_r.
Qed.

Lemma Run_stop_first r ctx m :
  Done (flags m) ctx = false →
  ∃ s' m',
    Run (stop_first r) ctx m =
      Ok None s' m' [EvBind (length (flags m)); EvEnter 0; EvStop 0; EvLeave 0 None].
Proof.
  intros Hd. cbv beta iota zeta delta [Run WithCancel stop_first]. unfold_M.
  cbn [handlers state loop flags Done]. unfold_M.
  rewrite Done_alloc, Hd, flag_fresh. unfold stopping.
  cbn [orb Handle HandlerFunc_Handler exec].
  unfold_M. cbn [stop flags ext].
  rewrite loop_done; [simpl; eauto|].
  apply Done_cancel. rewrite length_app. simpl. lia.
Qed.

(** C9: when the context given to [Run] is done already, no handler is
    executed and [Run] returns [nil]. A caller cannot tell this from a
    stop requested before the first handler of [r]: with a stopping
    handler put before them, whatever the context and the memory, [Run]
    returns the same value and executes none of the handlers of [r]
    (position 0 is the stopping handler). *)
Theorem Run_context_already_done r ctx m :
  Done (flags m) ctx = true →
  result (Run r ctx m) = Some None ∧
  executed (trace (Run r ctx m)) = [] ∧
  ∀ ctx0 m0,
    result (Run (stop_first r) ctx0 m0) = result (Run r ctx m) ∧
    ∀ j, j ∈ executed (trace (Run (stop_first r) ctx0 m0)) → j = 0.
Proof.
  intros Hd. rewrite (Run_done r) by done. simpl. repeat split; try done.
  - destruct (Done (flags m0) ctx0) eqn:Hd0.
    + by rewrite Run_done.
    + by destruct (Run_stop_first r ctx0 m0 Hd0) as (s' & m' & ->).
  - intros j. destruct (Done (flags m0) ctx0) eqn:Hd0.
    + rewrite Run_done by done. simpl. by intros ?%elem_of_nil.
    + destruct (Run_stop_first r ctx0 m0 Hd0) as (s' & m' & ->). simpl.
      by intros ->%list_elem_of_singleton.
Qed.

(** ** Repeated calls of Stop *)

Lemma Stop_Stop s m : (Stop ≫= λ _, Stop) s m = Stop s m.
Proof.
  unfold_M. destruct (stop s) as [c|] eqn:Hs; [|done].
  simpl. rewrite Hs. simpl. by rewrite cancel_cancel.
Qed.

(** Once the flag of [stop] is set, a call of [Stop()] changes nothing. *)
Lemma Stop_again s m c :
  stop s = Some c → flag (flags m) c = true → Stop s m = Ok tt s m [].
Proof.
  intros Hs Hf. unfold Stop. rewrite Hs, cancel_set by done. by destruct m.
Qed.

(** A handler and the same handler without its repeated calls of
    [Stop()] return the same value and leave the same memory. *)
Lemma exec_once {A} i b (p : Prog A) s m c :
  bound c s m → (b = true → flag (flags m) c = true) →
  ∃ a m' n n',
    exec i p s m = Ok a s m' (replicate n (EvStop i)) ∧
    exec i (once b p) s m = Ok a s m' (replicate n' (EvStop i)) ∧
    bound c s m'.
Proof.
  revert b m.
  induction p as [a|k IH|k IH|k IH|ctx k IH|c' k IH|k IH|x k IH];
    intros b m Hb Hf; simpl.
  - by exists a, m, 0, 0.
  - destruct Hb as [Hs Hc].
    destruct (IH true (mkMem (cancel c (flags m)) (ext m)))
      as (a & m' & n & n' & Hk & Hk' & Hb').
    { split; [done|]. simpl. by rewrite cancel_length. }
    { intros _. by apply flag_cancel. }
    destruct b.
    + exists a, m', (S n), n'. split; [|split; [|done]].
      * unfold_M. by rewrite Hs, Hk.
      * rewrite <- Hk', cancel_set by auto. by destruct m.
    + exists a, m', (S n), (S n'). simpl. unfold_M. by rewrite Hs, Hk, Hk'.
  - unfold_M.
    destruct (IH (log s) b m Hb Hf) as (a & m' & n & n' & -> & -> & Hb').
    by exists a, m', n, n'.
  - unfold_M.
    destruct (IH (client s) b m Hb Hf) as (a & m' & n & n' & -> & -> & Hb').
    by exists a, m', n, n'.
  - apply IH; done.
  - case_decide; [by apply IH|]. apply IH.
    + destruct Hb as [Hs Hc]. split; [done|]. simpl. by rewrite cancel_length.
    + intros Hbt. simpl. by apply grows_cancel, Hf.
  - apply IH; done.
  - apply IH; done.
Qed.

Lemma loop_once ctx c hs i s m :
  bound c s m →
  ∃ e m' tr tr',
    loop ctx hs i s m = Ok e s m' tr ∧
    loop ctx (once_handler <$> hs) i s m = Ok e s m' tr' ∧
    executed tr' = executed tr.
Proof.
  revert i m. induction hs as [|h hs IH]; intros i m Hb.
  - by exists None, m, [], [].
  - rewrite fmap_cons. cbn [loop].
    destruct (Done (flags m) ctx); [by apply IH|].
    unfold_M. cbn [Handle once_handler].
    destruct (exec_once i false (Handle h ctx) s m c Hb)
      as (err & m1 & n & n' & -> & -> & Hb1); [done|].
    destruct err as [e|].
    + eexists _, _, _, _. repeat split.
      simpl. by rewrite !executed_app, !executed_stops.
    + destruct (IH (S i) m1 Hb1) as (e & m' & tr & tr' & -> & -> & Hex).
      eexists _, _, _, _. repeat split.
      simpl. rewrite !executed_app, !executed_stops. simpl. by rewrite Hex.
Qed.

(** C4: [Stop()] is idempotent during a run. Whatever the handlers do,
    and however often they call [Stop()], [Run] does not panic; the
    run of the same handlers without their calls of [Stop()] that come
    after a first one returns the same value, leaves the same state and
    the same memory, and executes the same handlers; and two calls of
    [Stop()] in a row do what one call does. *)
Theorem Stop_idempotent r ctx m :
  is_Some (result (Run r ctx m)) ∧
  outcome (Run (once_runner r) ctx m) = outcome (Run r ctx m) ∧
  executed (trace (Run (once_runner r) ctx m)) = executed (trace (Run r ctx m)) ∧
  ∀ s m0, (Stop ≫= λ _, Stop) s m0 = Stop s m0.
Proof.
  split; [|split; [|split; [|apply Stop_Stop]]].
  - by destruct (Run_shape r ctx m) as (e & m' & tr & -> & _).
  - cbv beta iota zeta delta [Run WithCancel once_runner]. unfold_M.
    cbn [handlers state].
    lazymatch goal with
    | |- context [loop ?c (handlers r) 0 ?s0 ?m0] =>
        destruct (loop_once c (length (flags m)) (handlers r) 0 s0 m0)
          as (e & m' & tr & tr' & -> & -> & _)
    end; [|done].
    split; [done|]. simpl. rewrite length_app. simpl. lia.
  - cbv beta iota zeta delta [Run WithCancel once_runner]. unfold_M.
    cbn [handlers state].
    lazymatch goal with
    | |- context [loop ?c (handlers r) 0 ?s0 ?m0] =>
        destruct (loop_once c (length (flags m)) (handlers r) 0 s0 m0)
          as (e & m' & tr & tr' & -> & -> & Hex)
    end; [|done].
    split; [done|]. simpl. rewrite length_app. simpl. lia.
Qed.

(** ** AddHandlers and New *)

Lemma AddHandlers_foldl r (calls : list (list Handler)) :
  handlers (foldl AddHandlers r calls) = handlers r ++ concat calls ∧
  state (foldl AddHandlers r calls) = state r.
Proof.
  revert r. induction calls as [|hs calls IH]; intros r; simpl.
  - by rewrite app_nil_r.
  - destruct (IH (AddHandlers r hs)) as [-> ->]. simpl.
    by rewrite <- app_assoc.
Qed.

(** C5: the handlers of a runner after any sequence of calls of
    [AddHandlers] are its handlers before, followed by the arguments of
    the calls, in the order of the calls and of the arguments of each
    call; for a runner made by [New] they are the arguments of the calls
    alone. *)
Theorem AddHandlers_cumulative r (calls : list (list Handler)) :
  handlers (foldl AddHandlers r calls) = handlers r ++ concat calls ∧
  ∀ c opts, handlers (foldl AddHandlers (New c opts) calls) = concat calls.
Proof.
  split; [apply AddHandlers_foldl|].
  intros c opts. by destruct (AddHandlers_foldl (New c opts) calls) as [-> _].
Qed.

(** C7: [New] applies its options from the first to the last, each to
    the state the options before it made; so when two options set the
    logger, whatever the options around them, the logger of the runner is
    the one of the second. *)
Theorem New_last_option_wins c :
  state (New c []) = mkState None c zeroLogger ∧
  (∀ opts o, state (New c (opts ++ [o])) = o (state (New c opts))) ∧
  (∀ pre l1 mid l2,
     log (state (New c (pre ++ WithLogger l1 :: mid ++ [WithLogger l2]))) = l2).
Proof.
  split; [done|]. split.
  - intros opts o. unfold New. simpl. by rewrite foldl_snoc.
  - intros pre l1 mid l2. unfold New. simpl.
    rewrite foldl_app. cbn [foldl]. by rewrite foldl_snoc.
Qed.

Lemma WithLogger_stop ls s :
  stop (foldl (λ s (opt : Option), opt s) s (WithLogger <$> ls)) = stop s.
Proof.
  revert s. induction ls as [|l ls IH]; intros s; simpl; [done|].
  by rewrite IH.
Qed.

(** C8: [New] leaves [stop] nil, no option sets it and [AddHandlers]
    does not touch the state: a call of [Stop()] on the state of a runner
    on which [Run] was never called panics. *)
Theorem Stop_before_Run_panics c ls calls m :
  stop (state (New c (WithLogger <$> ls))) = None ∧
  Stop (state (foldl AddHandlers (New c (WithLogger <$> ls)) calls)) m = Panic.
Proof.
  assert (stop (state (New c (WithLogger <$> ls))) = None) as Hs.
  { unfold New. simpl. by rewrite WithLogger_stop. }
  split; [done|].
  destruct (AddHandlers_foldl (New c (WithLogger <$> ls)) calls) as [_ ->].
  unfold Stop. by rewrite Hs.
Qed.

(** ** More on contexts *)

Lemma flag_app fl l c : c < length fl → flag (fl ++ l) c = flag fl c.
Proof. intros Hc. unfold flag. by rewrite lookup_app_l. Qed.

Lemma Done_app fl l ctx :
  allocated fl ctx = true → Done (fl ++ l) ctx = Done fl ctx.
Proof.
  induction ctx as [|p IH c]; simpl; [done|].
  intros [Hc%bool_decide_eq_true Hal]%andb_true_iff.
  by rewrite IH, flag_app.
Qed.

Lemma allocated_app fl l ctx :
  allocated fl ctx = true → allocated (fl ++ l) ctx = true.
Proof.
  induction ctx as [|p IH c]; simpl; [done|].
  intros [Hc%bool_decide_eq_true Hal]%andb_true_iff.
  rewrite IH by done. rewrite bool_decide_eq_true_2; [done|].
  rewrite length_app. lia.
Qed.

Lemma cancel_fresh fl : cancel (length fl) (fl ++ [false]) = fl ++ [true].
Proof.
  unfold cancel. rewrite flag_fresh.
  rewrite insert_app_r_alt, Nat.sub_diag by lia. done.
Qed.

(** ** Handlers during which nothing but Stop cancels *)

(** All such a handler can do to the flags is to set the one of [stop]. *)
Lemma exec_quiet {A} i (p : Prog A) s m c :
  stop s = Some c → no_cancel p →
  ∃ a m' n,
    exec i p s m = Ok a s m' (replicate n (EvStop i)) ∧
    flags m' = (if n is 0 then flags m else cancel c (flags m)).
Proof.
  intros Hs Hp. revert m.
  induction Hp as [a|k _ IH|k _ IH|k _ IH|ctx k _ IH|k _ IH|x k _ IH];
    intros m; simpl.
  - by exists a, m, 0.
  - unfold_M. rewrite Hs.
    destruct (IH (mkMem (cancel c (flags m)) (ext m))) as (a & m' & n & -> & Hfl).
    exists a, m', (S n). split; [done|].
    simpl in Hfl. destruct n; rewrite Hfl; [done|apply cancel_cancel].
  - unfold_M. destruct (IH (log s) m) as (a & m' & n & -> & Hfl).
    by exists a, m', n.
  - unfold_M. destruct (IH (client s) m) as (a & m' & n & -> & Hfl).
    by exists a, m', n.
  - apply IH.
  - apply IH.
  - destruct (IH (mkMem (flags m) x)) as (a & m' & n & -> & Hfl).
    by exists a, m', n.
Qed.

Lemma loop_quiet ctx c hs i s m e s' m' tr :
  stop s = Some c → Forall quiet hs →
  loop ctx hs i s m = Ok e s' m' tr →
  flags m' = flags m ∨ flags m' = cancel c (flags m).
Proof.
  intros Hs Hq. revert i m e s' m' tr.
  induction Hq as [|h hs Hh _ IH]; intros i m e s' m' tr.
  - intros [= <- <- <- <-]. by left.
  - cbn [loop]. destruct (Done (flags m) ctx); [apply IH|].
    unfold_M.
    destruct (exec_quiet i (Handle h ctx) s m c Hs (Hh ctx))
      as (err & m1 & n & -> & Hfl).
    assert (flags m1 = flags m ∨ flags m1 = cancel c (flags m)) as H1.
    { rewrite Hfl. destruct n; auto. }
    simpl. destruct err as [E|].
    + by intros [= <- <- <- <-].
    + destruct (loop ctx hs (S i) s m1) as [e2 s2 m2 tr2|] eqn:Hl; [|done].
      intros [= <- <- <- <-].
      destruct (IH _ _ _ _ _ _ Hl) as [->| ->], H1 as [->| ->]; auto.
      right. apply cancel_cancel.
Qed.

(** ** The memory after Run *)

(** [Run] adds the flag of the context it derives to the flags, leaves
    it set exactly when a handler called [Stop()], and unsets no flag. *)
Lemma Run_flags r ctx m :
  ∃ e m' tr,
    Run r ctx m =
      Ok e (mkState (Some (length (flags m))) (client (state r)) (log (state r)))
         m' (EvBind (length (flags m)) :: tr) ∧
    length (flags m') = S (length (flags m)) ∧
    (∀ c, flag (flags m) c = true → flag (flags m') c = true) ∧
    (flag (flags m') (length (flags m)) = true ↔ ∃ j, EvStop j ∈ tr).
Proof.
  destruct (Run_loop r ctx m) as [Hb ->].
  destruct (loop_shape ctx _ (handlers r) 0 _ _ Hb) as (e & m' & tr & Hl & _).
  destruct (loop_flags _ _ _ _ _ _ _ _ _ _ Hb Hl) as (_ & [Hlen Hg] & Hf).
  rewrite Hl. exists e, m', tr. split; [done|].
  simpl in Hlen, Hg, Hf. split; [|split].
  - rewrite Hlen, length_app. simpl. lia.
  - intros c Hc. apply Hg. by rewrite flag_alloc.
  - rewrite Hf, flag_fresh. split; [by intros [?|?]|auto].
Qed.

(** X1: once [Run] has returned, [Stop()] on the state of the runner
    does not panic any more, whatever the memory: the field [stop] holds
    the cancel function of the context of the last run, and the client
    and the logger of the state are the ones from before the run. *)
Theorem Stop_after_Run_is_safe r ctx m :
  ∃ e s' m' tr,
    Run r ctx m = Ok e s' m' tr ∧
    client s' = client (state r) ∧ log s' = log (state r) ∧
    ∀ m2, Stop s' m2 =
          Ok tt s' (mkMem (cancel (length (flags m)) (flags m2)) (ext m2)) [].
Proof.
  destruct (Run_flags r ctx m) as (e & m' & tr & -> & _).
  by eexists _, _, _, _.
Qed.

(** X2: [Run] and [Stop()] do nothing to the contexts that exist when
    [Run] is called: when nothing but [Stop()] cancels a context while
    the handlers run, a context that is not done before the call is not
    done after it, and the flags that were there are the same. *)
Theorem Run_keeps_existing_contexts r ctx m ctx0 :
  Forall quiet (handlers r) →
  allocated (flags m) ctx0 = true →
  ∃ e s' m' tr,
    Run r ctx m = Ok e s' m' tr ∧
    Done (flags m') ctx0 = Done (flags m) ctx0 ∧
    allocated (flags m') ctx0 = true ∧
    take (length (flags m)) (flags m') = flags m.
Proof.
  intros Hq Hal. destruct (Run_loop r ctx m) as [Hb ->].
  destruct (loop_shape ctx _ (handlers r) 0 _ _ Hb) as (e & m' & tr & Hl & _).
  rewrite Hl. eexists _, _, _, _. split; [done|].
  assert (∃ b, flags m' = flags m ++ [b]) as [b ->].
  { destruct (loop_quiet _ _ _ _ _ _ _ _ _ _ (proj1 Hb) Hq Hl) as [->| ->].
    - by exists false.
    - exists true. simpl. apply cancel_fresh. }
  split; [by apply Done_app|]. split; [by apply allocated_app|].
  by rewrite take_app_length.
Qed.

(** X3: [Run] makes one context in each call, and does not cancel it by
    itself: when [Run] returns, the context it derived is done exactly
    when a handler called [Stop()] or the context given to [Run] is
    done. *)
Theorem Run_cancels_derived_iff_stopped r ctx m :
  ∃ e s' m' tr,
    Run r ctx m = Ok e s' m' tr ∧
    length (flags m') = S (length (flags m)) ∧
    (Done (flags m') (cancelCtx ctx (length (flags m))) = true ↔
     (∃ i, calls_Stop tr i) ∨ Done (flags m') ctx = true).
Proof.
  destruct (Run_flags r ctx m) as (e & m' & tr & -> & Hlen & _ & Hf).
  eexists _, _, _, _. split; [done|]. split; [done|].
  simpl. rewrite orb_true_iff, Hf. unfold calls_Stop.
  split; (intros [[j Hj]|?]; [left; exists j|by right]).
  - by right.
  - by apply elem_of_cons in Hj as [?|?].
Qed.

(** X4: every call of [Run] has a cancellation of its own. After a first
    call of [Run], a second call on the runner as the first call left
    it, with a context that is live by then, calls the first handler
    again, also when the first call was stopped. *)
Theorem Run_again_starts_afresh r ctx m ctx2 :
  handlers r ≠ [] →
  done_after (Run r ctx m) ctx2 = false →
  ∃ e s' m' tr,
    Run r ctx m = Ok e s' m' tr ∧
    head (executed (trace (Run (mkRunner (handlers r) s') ctx2 m'))) = Some 0.
Proof.
  intros Hne.
  destruct (Run_shape r ctx m) as (e & m' & tr & -> & _). simpl. intros Hd.
  eexists _, _, _, _. split; [done|].
  destruct (Run_shape (mkRunner (handlers r)
                         (mkState (Some (length (flags m)))
                            (client (state r)) (log (state r)))) ctx2 m')
    as (e2 & m2 & tr2 & -> & Htr2).
  simpl in *. rewrite Hd in Htr2.
  destruct (handlers r) as [|h hs]; [done|]. simpl in Htr2.
  inversion Htr2; subst.
  - by rewrite executed_segment_only.
  - by rewrite executed_segment.
Qed.

(** ** Handlers that do the same *)

(** Handlers that do the same whenever the loop calls them give the
    same loop. *)
Lemma loop_ext p c hs hs' i s m :
  bound c s m →
  Forall2 (λ h h', ∀ i m, bound c s m →
                          Done (flags m) (cancelCtx p c) = false →
                          exec i (Handle h' (cancelCtx p c)) s m =
                          exec i (Handle h (cancelCtx p c)) s m) hs hs' →
  loop (cancelCtx p c) hs' i s m = loop (cancelCtx p c) hs i s m.
Proof.
  intros Hb HF. revert i m Hb.
  induction HF as [|h h' hs hs' Hh HF IH]; intros i m Hb; [done|].
  destruct (Done (flags m) (cancelCtx p c)) eqn:Hd.
  - by rewrite !loop_done.
  - destruct (loop_live p c h hs i s m Hb Hd)
      as (err & m1 & n & He & Hb1 & _ & _ & _).
    cbn [loop]. rewrite Hd. unfold_M. rewrite (Hh i m Hb Hd), He.
    destruct err as [e|]; [done|]. by rewrite IH.
Qed.

Lemma Run_ext r hs' ctx m :
  Forall2 (λ h h', ∀ c i m0,
             bound c (mkState (Some c) (client (state r)) (log (state r))) m0 →
             Done (flags m0) (cancelCtx ctx c) = false →
             exec i (Handle h' (cancelCtx ctx c))
                  (mkState (Some c) (client (state r)) (log (state r))) m0 =
             exec i (Handle h (cancelCtx ctx c))
                  (mkState (Some c) (client (state r)) (log (state r))) m0)
          (handlers r) hs' →
  Run (mkRunner hs' (state r)) ctx m = Run r ctx m.
Proof.
  intros HF. cbv beta iota zeta delta [Run WithCancel]. unfold_M.
  cbn [handlers state].
  rewrite (loop_ext ctx (length (flags m)) (handlers r) hs'); [done|..].
  - split; [done|]. simpl. rewrite length_app. simpl. lia.
  - eapply Forall2_impl; [exact HF|]. intros h h' Hh i m0. apply Hh.
Qed.

Lemma exec_inline {A} i (p : Prog A) s m :
  exec i (inline (log s) (client s) p) s m = exec i p s m.
Proof.
  revert m. induction p as [a|k IH|k IH|k IH|ctx k IH|c' k IH|k IH|x k IH];
    intros m; simpl; try done.
  - unfold_M. destruct (stop s); [|done]. simpl. by rewrite IH.
  - unfold_M. rewrite IH. by destruct (exec i (k (log s)) s m).
  - unfold_M. rewrite IH. by destruct (exec i (k (client s)) s m).
  - by case_decide.
Qed.

(** X5: in a handler run by [Run], [s.Log()] and [s.Client()] return the
    logger and the client of the state of the runner, at every call:
    putting these two values in the place of the calls changes nothing
    to the run. *)
Theorem Run_accessors r ctx m :
  Run (inline_runner r) ctx m = Run r ctx m.
Proof.
  unfold inline_runner. apply Run_ext.
  apply Forall2_fmap_r, Forall_Forall2_diag, Forall_true.
  intros h c i m0 _ _. cbn [Handle]. apply (exec_inline i _ (mkState _ _ _)).
Qed.

Lemma exec_resolve {A} i p c b (q : Prog A) s m :
  bound c s m → (b = true → flag (flags m) c = true) →
  exec i (resolve (cancelCtx p c) b q) s m = exec i q s m.
Proof.
  revert b m. induction q as [a|k IH|k IH|k IH|ctx k IH|c' k IH|k IH|x k IH];
    intros b m Hb Hf; simpl; try done.
  - destruct Hb as [Hs Hc]. unfold_M. rewrite Hs. simpl.
    rewrite (IH true); [done|..].
    + split; [done|]. simpl. by rewrite cancel_length.
    + intros _. by apply flag_cancel.
  - unfold_M. by rewrite IH.
  - unfold_M. by rewrite IH.
  - destruct b; simpl; [|by apply IH].
    case_bool_decide as Hctx; [|by apply IH].
    subst ctx. simpl. rewrite Hf by done. by apply IH.
  - case_decide; [by apply IH|]. apply IH.
    + destruct Hb as [Hs Hc]. split; [done|]. simpl. by rewrite cancel_length.
    + intros Hbt. simpl. by apply grows_cancel, Hf.
  - by apply IH.
  - by apply IH.
Qed.

(** X6: once a handler run by [Run] has called [Stop()], every test it
    makes of the context it was given finds it done: putting this answer
    in the place of these tests changes nothing to the run. *)
Theorem Run_own_context r ctx m :
  Run (resolve_runner r) ctx m = Run r ctx m.
Proof.
  unfold resolve_runner. apply Run_ext.
  apply Forall2_fmap_r, Forall_Forall2_diag, Forall_true.
  intros h c i m0 Hb Hd. cbn [Handle]. by apply exec_resolve.
Qed.

(** ** Handlers added behind others *)

(** The loop over two lists of handlers is the loop over the first,
    followed, when it returns [nil], by the loop over the second. *)
Lemma loop_app ctx hs1 hs2 i s m :
  loop ctx (hs1 ++ hs2) i s m =
  match loop ctx hs1 i s m with
  | Ok None s1 m1 tr1 =>
      match loop ctx hs2 (i + length hs1) s1 m1 with
      | Ok e s2 m2 tr2 => Ok e s2 m2 (tr1 ++ tr2)
      | Panic => Panic
      end
  | o => o
  end.
Proof.
  revert i s m. induction hs1 as [|h hs1 IH]; intros i s m.
  - simpl. unfold_M. rewrite Nat.add_0_r. destruct (loop ctx hs2 i s m); reflexivity.
  - cbn [app loop length]. rewrite <- Nat.add_succ_comm.
    destruct (Done (flags m) ctx); [apply IH|].
    unfold_M. destruct (exec i (Handle h ctx) s m) as [err s1 m1 tr1|]; [|done].
    simpl. destruct err as [e|]; [done|]. rewrite IH.
    destruct (loop ctx hs1 (S i) s1 m1) as [[e|] s2 m2 tr2|]; try done.
    simpl.
    destruct (loop ctx hs2 (S (i + length hs1)) s2 m2) as [e s3 m3 tr3|];
      [|done].
    by rewrite <- !app_assoc.
Qed.

Lemma Run_unfold r ctx m :
  Run r ctx m =
  match loop (cancelCtx ctx (length (flags m))) (handlers r) 0
             (mkState (Some (length (flags m))) (client (state r)) (log (state r)))
             (mkMem (flags m ++ [false]) (ext m)) with
  | Ok e s' m' tr => Ok e s' m' (EvBind (length (flags m)) :: tr)
  | Panic => Panic
  end.
Proof. done. Qed.

Lemma Run_bound r m :
  bound (length (flags m))
        (mkState (Some (length (flags m))) (client (state r)) (log (state r)))
        (mkMem (flags m ++ [false]) (ext m)).
Proof. split; [done|]. simpl. rewrite length_app. simpl. lia. Qed.

(** [Run] over the handlers of [r] followed by [hs] is [Run] over the
    handlers of [r], followed, when it returns [nil], by the loop over
    [hs]. *)
Lemma Run_AddHandlers r hs ctx m :
  Run (AddHandlers r hs) ctx m =
  match Run r ctx m with
  | Ok None s1 m1 tr1 =>
      match loop (cancelCtx ctx (length (flags m))) hs (length (handlers r))
                 s1 m1 with
      | Ok e s2 m2 tr2 => Ok e s2 m2 (tr1 ++ tr2)
      | Panic => Panic
      end
  | o => o
  end.
Proof.
  rewrite !Run_unfold. cbn [AddHandlers handlers state]. rewrite loop_app.
  destruct (loop _ (handlers r) 0 _ _) as [[e|] s1 m1 tr1|]; try done.
  simpl. by destruct (loop _ hs _ s1 m1).
Qed.

(** The loop keeps [stop] assigned to a context that exists. *)
Lemma loop_bound p c hs i s m e s' m' tr :
  bound c s m → loop (cancelCtx p c) hs i s m = Ok e s' m' tr → bound c s' m'.
Proof.
  intros Hb Hl. by destruct (loop_flags _ _ _ _ _ _ _ _ _ _ Hb Hl).
Qed.

(** [Run] with added handlers, without the case of a panic. *)
Lemma Run_AddHandlers_Ok r hs ctx m :
  ∃ e s1 m1 tr1 e2 m2 tr2,
    Run r ctx m = Ok e s1 m1 tr1 ∧
    bound (length (flags m)) s1 m1 ∧
    loop (cancelCtx ctx (length (flags m))) hs (length (handlers r)) s1 m1 =
      Ok e2 s1 m2 tr2 ∧
    Run (AddHandlers r hs) ctx m =
      match e with
      | Some _ => Ok e s1 m1 tr1
      | None => Ok e2 s1 m2 (tr1 ++ tr2)
      end.
Proof.
  rewrite Run_AddHandlers, Run_unfold.
  destruct (loop _ (handlers r) 0 _ _) as [e s1 m1 tr1|] eqn:Hl.
  2:{ destruct (loop_shape ctx _ (handlers r) 0 _ _ (Run_bound r m))
        as (? & ? & ? & Hl' & _). by rewrite Hl' in Hl. }
  pose proof (loop_bound _ _ _ _ _ _ _ _ _ _ (Run_bound r m) Hl) as Hb1.
  destruct (loop_shape ctx _ hs (length (handlers r)) s1 m1 Hb1)
    as (e2 & m2 & tr2 & Hl2 & _).
  exists e, s1, m1, (EvBind (length (flags m)) :: tr1), e2, m2, tr2.
  rewrite Hl2. by destruct e.
Qed.

(** X7: handlers added behind the handlers of a runner change nothing to
    what these do: the events of [Run] on the runner are the first events
    of [Run] on the runner with the added handlers. *)
Theorem Run_AddHandlers_keeps_earlier r hs ctx m :
  ∃ tr, trace (Run (AddHandlers r hs) ctx m) = trace (Run r ctx m) ++ tr.
Proof.
  destruct (Run_AddHandlers_Ok r hs ctx m)
    as (e & s1 & m1 & tr1 & e2 & m2 & tr2 & -> & _ & _ & ->).
  destruct e; simpl.
  - exists []. by rewrite app_nil_r.
  - by exists tr2.
Qed.

(** X8: handlers added behind a runner whose run fails, is stopped or
    starts on a context that is done are never called: [Run] does and
    returns the same with them as without them. *)
Theorem Run_AddHandlers_not_reached r hs ctx m :
  (∃ E, result (Run r ctx m) = Some (Some E)) ∨
  (∃ i, calls_Stop (trace (Run r ctx m)) i) ∨
  Done (flags m) ctx = true →
  Run (AddHandlers r hs) ctx m = Run r ctx m.
Proof.
  intros H. rewrite Run_AddHandlers, Run_unfold in *.
  pose proof (Run_bound r m) as Hb.
  destruct (loop _ (handlers r) 0 _ _) as [[e|] s1 m1 tr1|] eqn:Hl; try done.
  assert (Done (flags m1) (cancelCtx ctx (length (flags m))) = true) as Hd.
  { destruct H as [[E [=]]|[[i Hi]|Hd]].
    - unfold calls_Stop in Hi. simpl in Hi.
      apply elem_of_cons in Hi as [?|Hi]; [done|].
      destruct (loop_flags _ _ _ _ _ _ _ _ _ _ Hb Hl) as (_ & _ & Hf).
      simpl. rewrite (proj2 Hf); [done|]. right. by exists i.
    - rewrite loop_done in Hl.
      + injection Hl as <- <- <-. simpl. by rewrite Done_alloc, Hd, orb_true_r.
      + simpl. by rewrite Done_alloc, Hd, orb_true_r. }
  rewrite loop_done by done. by rewrite app_nil_r.
Qed.

(** ** What Run executes and returns, in general *)

Lemma loop_trace_prefix i k d e tr :
  loop_trace i k d e tr → ∃ n, n ≤ k ∧ executed tr = seq i n.
Proof.
  induction 1 as [i d|i k|i k n e|i k n d e tr _ _ (n' & Hn' & IH)].
  - by exists 0.
  - exists 0. split; [lia|done].
  - exists 1. split; [lia|]. by rewrite executed_segment_only.
  - exists (S n'). split; [lia|]. by rewrite executed_segment, IH.
Qed.

Lemma loop_trace_error_origin i k d E tr :
  loop_trace i k d (Some E) tr → ∃ j, EvLeave j (Some E) ∈ tr.
Proof.
  intros H. remember (Some E) as e eqn:He.
  induction H as [i d|i k|i k n e|i k n d e tr _ _ IH]; try done.
  - injection He as <-. exists i. apply elem_of_segment_only. auto.
  - destruct (IH He) as [j Hj]. exists j. apply elem_of_segment. auto.
Qed.

(** X9: in every run the handlers that are executed are the first ones
    of the runner, each once and in their order: no handler is called
    after one that was skipped, and none is called twice. *)
Theorem Run_executes_a_prefix r ctx m :
  ∃ k, k ≤ length (handlers r) ∧ executed (trace (Run r ctx m)) = seq 0 k.
Proof.
  destruct (Run_shape r ctx m) as (e & m' & tr & -> & Htr).
  destruct (loop_trace_prefix _ _ _ _ _ Htr) as (k & Hk & Hex).
  by exists k.
Qed.

(** X10: [Run] returns no error of its own: it returns the error [E]
    exactly when one of its handlers returned [E]; a stop or a context
    that is done gives [nil]. *)
Theorem Run_error_iff_handler_error r ctx m E :
  result (Run r ctx m) = Some (Some E) ↔
  ∃ i, returns (trace (Run r ctx m)) i (Some E).
Proof.
  unfold returns.
  destruct (Run_shape r ctx m) as (e & m' & tr & -> & Htr). simpl. split.
  - intros [= ->]. destruct (loop_trace_error_origin _ _ _ _ _ Htr) as [j Hj].
    exists j. by right.
  - intros [i Hi]. apply elem_of_cons in Hi as [?|Hi]; [done|].
    by destruct (loop_trace_error _ _ _ _ _ _ _ Htr Hi) as [-> _].
Qed.

Lemma foldl_WithLogger ls s :
  foldl (λ s (opt : Option), opt s) s (WithLogger <$> ls) =
  mkState (stop s) (client s) (default (log s) (last ls)).
Proof.
  revert s. induction ls as [|l ls IH]; intros s; simpl.
  - by destruct s.
  - rewrite IH, last_cons. simpl. by destruct (last ls).
Qed.

(** X11: the state [New] makes from loggers given with [WithLogger]: no
    cancel function, the client given to [New], and the last of the
    loggers, or the zero logger when there is none. *)
Theorem New_WithLogger_state c ls :
  state (New c (WithLogger <$> ls)) = mkState None c (default zeroLogger (last ls)) ∧
  handlers (New c (WithLogger <$> ls)) = [].
Proof.
  split; [|done]. unfold New. simpl. by rewrite foldl_WithLogger.
Qed.

(** ** The handlers of the tests *)

(** The positions of the handlers only show in the events. *)
Lemma exec_outcome_index {A} i j (p : Prog A) s m :
  outcome (exec i p s m) = outcome (exec j p s m).
Proof.
  revert m. induction p as [a|k IH|k IH|k IH|ctx k IH|c' k IH|k IH|x k IH];
    intros m; simpl; try done.
  - unfold_M. destruct (stop s); [|done]. simpl.
    specialize (IH (mkMem (cancel c (flags m)) (ext m))).
    by destruct (exec i k s _), (exec j k s _).
  - unfold_M. specialize (IH (log s) m).
    by destruct (exec i (k (log s)) s m), (exec j (k (log s)) s m).
  - unfold_M. specialize (IH (client s) m).
    by destruct (exec i (k (client s)) s m), (exec j (k (client s)) s m).
  - by case_decide.
Qed.

Lemma loop_outcome_index ctx hs i j s m :
  outcome (loop ctx hs i s m) = outcome (loop ctx hs j s m).
Proof.
  revert i j s m. induction hs as [|h hs IH]; intros i j s m; [done|].
  cbn [loop]. destruct (Done (flags m) ctx); [apply IH|].
  unfold_M. pose proof (exec_outcome_index i j (Handle h ctx) s m) as He.
  destruct (exec i (Handle h ctx) s m) as [e1 s1 m1 tr1|],
           (exec j (Handle h ctx) s m) as [e2 s2 m2 tr2|]; try done.
  injection He as -> -> ->. simpl. destruct e2 as [e|]; [done|].
  specialize (IH (S i) (S j) s2 m2).
  by destruct (loop ctx hs (S i) s2 m2), (loop ctx hs (S j) s2 m2).
Qed.

(** One turn of the loop, from what the handler does. *)
Lemma loop_cons_exec ctx h hs i s m err m1 tr :
  Done (flags m) ctx = false →
  exec i (Handle h ctx) s m = Ok err s m1 tr →
  loop ctx (h :: hs) i s m =
    match err with
    | Some e => Ok (Some e) s m1 (EvEnter i :: tr ++ [EvLeave i err])
    | None =>
        match loop ctx hs (S i) s m1 with
        | Ok e s' m' tr' => Ok e s' m' (EvEnter i :: tr ++ EvLeave i None :: tr')
        | Panic => Panic
        end
    end.
Proof.
  intros Hd He. cbn [loop]. rewrite Hd. unfold_M. rewrite He.
  destruct err as [e|]; [done|]. by destruct (loop ctx hs (S i) s m1).
Qed.

(** A handler that returns [nil] and does nothing else is as good as not
    there, but for the positions of the handlers after it. *)
Lemma Run_skip_head h hs st ctx m :
  (∀ i s m0, ext m0 = ext m → exec i (Handle h (cancelCtx ctx (length (flags m)))) s m0
                              = Ok None s m0 []) →
  outcome (Run (mkRunner (h :: hs) st) ctx m) =
  outcome (Run (mkRunner hs st) ctx m).
Proof.
  intros Hh. rewrite !Run_unfold. cbn [handlers state].
  set (s0 := mkState _ _ _). set (m0 := mkMem _ _).
  set (c' := cancelCtx _ _).
  destruct (Done (flags m0) c') eqn:Hd.
  - by rewrite !loop_done.
  - rewrite (loop_cons_exec c' h hs 0 s0 m0 None m0 []); [|done|by apply Hh].
    pose proof (loop_outcome_index c' hs 1 0 s0 m0) as Hl.
    by destruct (loop c' hs 1 s0 m0), (loop c' hs 0 s0 m0).
Qed.

Lemma exec_Finalizer_present K obj key ctx i s m :
  ContainsFinalizer K obj key (ext m) = true →
  exec i (FinalizerHandler K obj key ctx) s m = Ok None s m [].
Proof. intros H. unfold FinalizerHandler. simpl. by rewrite H. Qed.


Lemma exec_Deletion_absent K obj final ctx i s m :
  GetDeletionTimestamp K obj (ext m) = None →
  exec i (DeletionHandler K obj final ctx) s m = Ok None s m [].
Proof. intros H. unfold DeletionHandler. simpl. by rewrite H. Qed.

Lemma exec_Deletion_present K obj final ctx i s m c t :
  stop s = Some c →
  GetDeletionTimestamp K obj (ext m) = Some t →
  exec i (DeletionHandler K obj final ctx) s m =
    Ok (fst (Delete K (client s) (Done (flags m) ctx) obj
               (RemoveFinalizer K obj final
                  (Info K (log s) "resource is in deletion. Removing finalizer"
                     (ext m)))))
       s
       (mkMem (cancel c (flags m))
          (snd (Delete K (client s) (Done (flags m) ctx) obj
                  (RemoveFinalizer K obj final
                     (Info K (log s) "resource is in deletion. Removing finalizer"
                        (ext m))))))
       [EvStop i].
Proof.
  intros Hs H. unfold DeletionHandler. simpl. rewrite H. simpl.
  unfold_M. simpl. by rewrite Hs.
Qed.

(** X12: on an object that has the finalizer, [FinalizerHandler] lets the
    pipeline go on and leaves everything as it is: at the head of a
    runner it changes neither what [Run] returns nor the state and the
    memory after it. *)
Theorem Run_FinalizerHandler_present K obj key hs st ctx m :
  ContainsFinalizer K obj key (ext m) = true →
  outcome (Run (mkRunner (HandlerFunc_Handler (FinalizerHandler K obj key) :: hs)
                         st) ctx m) =
  outcome (Run (mkRunner hs st) ctx m).
Proof.
  intros H. apply Run_skip_head. intros i s m0 Hm0.
  apply exec_Finalizer_present. by rewrite Hm0.
Qed.


(** X14: on an object that is not in deletion, [DeletionHandler] lets
    the pipeline go on and leaves everything as it is. *)
Theorem Run_DeletionHandler_not_in_deletion K obj final hs st ctx m :
  GetDeletionTimestamp K obj (ext m) = None →
  outcome (Run (mkRunner (HandlerFunc_Handler (DeletionHandler K obj final) :: hs)
                         st) ctx m) =
  outcome (Run (mkRunner hs st) ctx m).
Proof.
  intros H. apply Run_skip_head. intros i s m0 Hm0.
  apply exec_Deletion_absent. by rewrite Hm0.
Qed.


Lemma exec_exampleFunc K text ctx i s m :
  exec i (exampleFunc K text ctx) s m =
  Ok None s (mkMem (flags m) (Println K text (ext m))) [].
Proof. done. Qed.

(** X16: the pipeline of [TestState_Run] on a rule that has the
    finalizer and is not in deletion: the two handlers of the finalizer
    do not break the loop, the three handlers after them are executed in
    their order, and [Run] returns [nil]. *)
Theorem TestState_Run_finalizer_present K c l rule m :
  ContainsFinalizer K rule "finalizer" (ext m) = true →
  GetDeletionTimestamp K rule (ext m) = None →
  Run (TestState_Run_runner K c l rule) TODO m =
  Ok None (mkState (Some (length (flags m))) c l)
     (mkMem (flags m ++ [false])
        (Println K "Pulled my trigger, now he's dead."
           (Println K "Put a gun against his head."
              (Println K "Mama, just killed a man." (ext m)))))
     [EvBind (length (flags m));
      EvEnter 0; EvLeave 0 None; EvEnter 1; EvLeave 1 None;
      EvEnter 2; EvLeave 2 None; EvEnter 3; EvLeave 3 None;
      EvEnter 4; EvLeave 4 None].
Proof.
  intros Hf Ht. rewrite Run_unfold.
  cbn [TestState_Run_runner AddHandlers New handlers state foldl fmap list_fmap
       app WithLogger client log].
  set (s0 := mkState _ _ _). set (m0 := mkMem _ _). set (c' := cancelCtx _ _).
  assert (∀ x, Done (flags (mkMem (flags m0) x)) c' = false) as Hd.
  { intros x. subst m0 c'. simpl. by rewrite flag_fresh. }
  erewrite loop_cons_exec;
    [|apply (Hd (ext m))|by apply (exec_Finalizer_present K rule _ c' 0 s0 m0)].
  erewrite loop_cons_exec;
    [|apply (Hd (ext m))|by apply (exec_Deletion_absent K rule _ c' 1 s0 m0)].
  erewrite loop_cons_exec; [|apply (Hd (ext m))|apply exec_exampleFunc].
  erewrite loop_cons_exec; [|apply Hd|apply exec_exampleFunc].
  erewrite loop_cons_exec; [|apply Hd|apply exec_exampleFunc].
  done.
Qed.

(** X17: the pipeline of [TestState_Run] on a rule that has the
    finalizer and is in deletion: [FinalizerHandler] lets the loop go on,
    [DeletionHandler] removes the finalizer, calls [Delete] on a live
    context and stops the pipeline; [Run] returns what [Delete] returned
    and the three handlers after it are not executed. *)
Theorem TestState_Run_in_deletion K c l rule m t :
  ContainsFinalizer K rule "finalizer" (ext m) = true →
  GetDeletionTimestamp K rule (ext m) = Some t →
  Run (TestState_Run_runner K c l rule) TODO m =
  Ok (fst (Delete K c false rule
             (RemoveFinalizer K rule "finalizer"
                (Info K l "resource is in deletion. Removing finalizer" (ext m)))))
     (mkState (Some (length (flags m))) c l)
     (mkMem (flags m ++ [true])
        (snd (Delete K c false rule
                (RemoveFinalizer K rule "finalizer"
                   (Info K l "resource is in deletion. Removing finalizer"
                      (ext m))))))
     [EvBind (length (flags m));
      EvEnter 0; EvLeave 0 None; EvEnter 1; EvStop 1;
      EvLeave 1 (fst (Delete K c false rule
                        (RemoveFinalizer K rule "finalizer"
                           (Info K l "resource is in deletion. Removing finalizer"
                              (ext m)))))].
Proof.
  intros Hf Ht. rewrite Run_unfold.
  cbn [TestState_Run_runner AddHandlers New handlers state foldl fmap list_fmap
       app WithLogger client log].
  set (s0 := mkState _ _ _). set (m0 := mkMem _ _). set (c' := cancelCtx _ _).
  assert (Done (flags m0) c' = false) as Hd.
  { subst m0 c'. simpl. by rewrite flag_fresh. }
  erewrite loop_cons_exec;
    [|done|by apply (exec_Finalizer_present K rule _ c' 0 s0 m0)].
  erewrite loop_cons_exec;
    [|done|by apply (exec_Deletion_present K rule _ c' 1 s0 m0
                       (length (flags m)) t)].
  rewrite Hd. subst s0 m0. cbn [client log flags ext]. rewrite cancel_fresh.
  destruct (fst (Delete _ _ _ _ _)) as [e|]; [done|].
  rewrite loop_done; [done|].
  simpl. unfold flag. by rewrite lookup_app_r, Nat.sub_diag by lia.
Qed.

End Pipeline.

(** ** The pipeline on concrete handlers

    Errors and loggers are numbers, the client and the captured data are
    trivial. *)

Arguments mkMem {Ext} flags ext.
Arguments fresh_mem {Ext} x.
Arguments cancelled_mem {Ext} x.
Arguments Ok {Err K8sClient Logger Ext A} a s m tr.
Arguments Panic {Err K8sClient Logger Ext A}.
Arguments EvBind {Err} c.
Arguments EvEnter {Err} i.
Arguments EvStop {Err} i.
Arguments EvLeave {Err} i e.
Arguments result {Err K8sClient Logger Ext A} o.
Arguments trace {Err K8sClient Logger Ext A} o.
Arguments outcome {Err K8sClient Logger Ext A} o.
Arguments executed {Err} tr.
Arguments calls_Stop {Err} tr i.
Arguments returns {Err} tr i e.
Arguments segment {Err} i n e.
Arguments handlers {Err K8sClient Logger Ext} r.
Arguments state {Err K8sClient Logger Ext} r.
Arguments noop {Err K8sClient Logger Ext} _.
Arguments failing {Err K8sClient Logger Ext} e _.
Arguments stopping {Err K8sClient Logger Ext} ret _.
Arguments stopping_n {Err K8sClient Logger Ext} n ret _.
Arguments pipeline {Err K8sClient Logger} zeroLogger {Ext} c hs.
Arguments once_runner {Err K8sClient Logger Ext} r.
Arguments Run {Err K8sClient Logger Ext} r ctx _.
Arguments done_after {Err K8sClient Logger Ext A} o ctx.
Arguments cancelling {Err K8sClient Logger Ext} c _.

(** Membership in a computed list of events. *)
Ltac in_trace := vm_compute; repeat constructor.
Ltac not_in_trace H :=
  vm_compute in H;
  repeat (apply elem_of_cons in H as [H|H]; [try discriminate H; injection H; lia|]);
  by apply elem_of_nil in H.

(** Scenario A: [noop, error(E)]. *)
Example scenario_A :
  Run (pipeline (Ext:=unit) 0 tt [noop; failing 7]) TODO (fresh_mem tt)
  = Ok (Some 7) (mkState unit nat (Some 0) tt 0) (mkMem [false] tt)
       [EvBind 0; EvEnter 0; EvLeave 0 None; EvEnter 1; EvLeave 1 (Some 7)].
Proof. reflexivity. Qed.

(** Scenario B: [Stop()+nil, noop]. *)
Example scenario_B :
  Run (pipeline (Err:=nat) (Ext:=unit) 0 tt [stopping None; noop]) TODO (fresh_mem tt)
  = Ok None (mkState unit nat (Some 0) tt 0) (mkMem [true] tt)
       [EvBind 0; EvEnter 0; EvStop 0; EvLeave 0 None].
Proof. reflexivity. Qed.

(** Scenario C: [noop, noop, noop]. *)
Example scenario_C :
  Run (pipeline (Err:=nat) (Ext:=unit) 0 tt [noop; noop; noop]) TODO (fresh_mem tt)
  = Ok None (mkState unit nat (Some 0) tt 0) (mkMem [false] tt)
       [EvBind 0; EvEnter 0; EvLeave 0 None; EvEnter 1; EvLeave 1 None;
        EvEnter 2; EvLeave 2 None].
Proof. reflexivity. Qed.

(** A handler that calls [Stop()] three times, in a second run of the
    same runner: the second run makes a context of its own. *)
Example scenario_stop_thrice :
  Run (pipeline (Err:=nat) (Ext:=unit) 0 tt [noop; stopping_n 3 None; noop])
      TODO (mkMem [true] tt)
  = Ok None (mkState unit nat (Some 1) tt 0) (mkMem [true; true] tt)
       [EvBind 1; EvEnter 0; EvLeave 0 None;
        EvEnter 1; EvStop 1; EvStop 1; EvStop 1; EvLeave 1 None].
Proof. reflexivity. Qed.

Lemma Run_stop_returns_nil_witness :
  calls_Stop (trace (Run (pipeline (Err:=nat) (Ext:=unit) 0 tt
                                   [noop; stopping None; noop])
                         TODO (fresh_mem tt))) 1 ∧
  returns (trace (Run (pipeline (Err:=nat) (Ext:=unit) 0 tt
                                [noop; stopping None; noop])
                      TODO (fresh_mem tt))) 1 None ∧
  result (Run (pipeline (Err:=nat) (Ext:=unit) 0 tt [noop; stopping None; noop])
              TODO (fresh_mem tt)) = Some None ∧
  executed (trace (Run (pipeline (Err:=nat) (Ext:=unit) 0 tt
                                 [noop; stopping None; noop])
                       TODO (fresh_mem tt))) = [0; 1].
Proof.
  assert (calls_Stop (trace (Run (pipeline (Err:=nat) (Ext:=unit) 0 tt
                                           [noop; stopping None; noop])
                                 TODO (fresh_mem tt))) 1) as Hst by in_trace.
  assert (returns (trace (Run (pipeline (Err:=nat) (Ext:=unit) 0 tt
                                        [noop; stopping None; noop])
                              TODO (fresh_mem tt))) 1 None) as Hlv by in_trace.
  destruct (Run_stop_returns_nil nat unit nat unit
              (pipeline 0 tt [noop; stopping None; noop]) TODO (fresh_mem tt) 1
              Hst Hlv) as (Hres & Hex & _).
  - intros j Hj. split; [intros H|intros E H]; not_in_trace H.
  - exact (conj Hst (conj Hlv (conj Hres Hex))).
Defined.

Lemma Run_error_returned_witness :
  returns (trace (Run (pipeline (Ext:=unit) 0 tt [noop; failing 7; noop])
                      TODO (fresh_mem tt))) 1 (Some 7) ∧
  result (Run (pipeline (Ext:=unit) 0 tt [noop; failing 7; noop])
              TODO (fresh_mem tt)) = Some (Some 7) ∧
  executed (trace (Run (pipeline (Ext:=unit) 0 tt [noop; failing 7; noop])
                       TODO (fresh_mem tt))) = [0; 1].
Proof.
  assert (returns (trace (Run (pipeline (Ext:=unit) 0 tt [noop; failing 7; noop])
                              TODO (fresh_mem tt))) 1 (Some 7)) as Hlv by in_trace.
  destruct (Run_error_returned nat unit nat unit
              (pipeline 0 tt [noop; failing 7; noop]) TODO (fresh_mem tt) 1 7
              Hlv) as (Hres & Hex).
  - intros j Hj. split; [intros H|intros E H]; not_in_trace H.
  - exact (conj Hlv (conj Hres Hex)).
Defined.

(** C3 as it is stated fails when the context given to [Run] is done
    already: the only handler neither fails nor stops, and is not
    executed. *)
Lemma Run_complete_fails_on_done_context :
  ¬ (∀ (r : Runner nat unit nat unit) (ctx : Context) (m : Mem unit),
       (∀ j, ¬ calls_Stop (trace (Run r ctx m)) j) →
       (∀ j E, ¬ returns (trace (Run r ctx m)) j (Some E)) →
       result (Run r ctx m) = Some None ∧
       executed (trace (Run r ctx m)) = seq 0 (length (handlers r))).
Proof.
  intros Hclaim.
  destruct (Hclaim (pipeline 0 tt [noop]) (cancelCtx Background 0)
                   (cancelled_mem tt)) as [_ Hex].
  - intros j H. not_in_trace H.
  - intros j E H. not_in_trace H.
  - vm_compute in Hex. discriminate Hex.
Qed.

(** The context given to [Run] becomes done while [Run] executes: the
    first handler holds the cancel function of that context and calls it
    (or the deadline of the context passes while this handler runs). No
    handler fails or calls [Stop()], and the two handlers after it are
    not executed. *)
Example scenario_caller_cancels :
  Run (pipeline (Err:=nat) (Ext:=unit) 0 tt [cancelling 0; noop; noop])
      (cancelCtx Background 0) (mkMem [false] tt)
  = Ok None (mkState unit nat (Some 1) tt 0) (mkMem [true; false] tt)
       [EvBind 1; EvEnter 0; EvLeave 0 None].
Proof. reflexivity. Qed.

Lemma Run_complete_witness :
  Done (flags unit (fresh_mem tt)) TODO = false ∧
  done_after (Run (pipeline (Err:=nat) (Ext:=unit) 0 tt [noop; noop; noop])
                  TODO (fresh_mem tt)) TODO = false ∧
  result (Run (pipeline (Err:=nat) (Ext:=unit) 0 tt [noop; noop; noop])
              TODO (fresh_mem tt)) = Some None ∧
  executed (trace (Run (pipeline (Err:=nat) (Ext:=unit) 0 tt [noop; noop; noop])
                       TODO (fresh_mem tt))) = [0; 1; 2].
Proof.
  destruct (Run_complete nat unit nat unit
              (pipeline 0 tt [noop; noop; noop]) TODO (fresh_mem tt))
    as (Hres & Hex).
  - reflexivity.
  - reflexivity.
  - intros j H. not_in_trace H.
  - intros j E H. not_in_trace H.
  - exact (conj eq_refl (conj eq_refl (conj Hres Hex))).
Defined.

Lemma Run_context_already_done_witness :
  Done (flags unit (cancelled_mem tt)) (cancelCtx Background 0) = true ∧
  result (Run (pipeline (Err:=nat) (Ext:=unit) 0 tt [noop; noop])
              (cancelCtx Background 0) (cancelled_mem tt)) = Some None ∧
  executed (trace (Run (pipeline (Err:=nat) (Ext:=unit) 0 tt [noop; noop])
                       (cancelCtx Background 0) (cancelled_mem tt))) = [].
Proof.
  destruct (Run_context_already_done nat unit nat unit
              (pipeline 0 tt [noop; noop]) (cancelCtx Background 0)
              (cancelled_mem tt)) as (Hres & Hex & _).
  - reflexivity.
  - exact (conj eq_refl (conj Hres Hex)).
Defined.

Lemma Run_error_wins_over_stop_witness :
  calls_Stop (trace (Run (pipeline (Ext:=unit) 0 tt
                                   [noop; stopping (Some 7); noop])
                         TODO (fresh_mem tt))) 1 ∧
  returns (trace (Run (pipeline (Ext:=unit) 0 tt
                                [noop; stopping (Some 7); noop])
                      TODO (fresh_mem tt))) 1 (Some 7) ∧
  result (Run (pipeline (Ext:=unit) 0 tt [noop; stopping (Some 7); noop])
              TODO (fresh_mem tt)) = Some (Some 7) ∧
  executed (trace (Run (pipeline (Ext:=unit) 0 tt
                                 [noop; stopping (Some 7); noop])
                       TODO (fresh_mem tt))) = [0; 1].
Proof.
  assert (calls_Stop (trace (Run (pipeline (Ext:=unit) 0 tt
                                           [noop; stopping (Some 7); noop])
                                 TODO (fresh_mem tt))) 1) as Hst by in_trace.
  assert (returns (trace (Run (pipeline (Ext:=unit) 0 tt
                                        [noop; stopping (Some 7); noop])
                              TODO (fresh_mem tt))) 1 (Some 7)) as Hlv
      by in_trace.
  destruct (Run_error_wins_over_stop nat unit nat unit
              (pipeline 0 tt [noop; stopping (Some 7); noop]) TODO
              (fresh_mem tt) 1 7 Hst Hlv) as (Hres & Hex).
  exact (conj Hst (conj Hlv (conj Hres Hex))).
Defined.

(** ** More runs on concrete handlers *)

Arguments flags {Ext} m.
Arguments ext {Ext} m.
Arguments mkRunner {Err K8sClient Logger Ext} handlers state.
Arguments HandlerFunc_Handler {Err K8sClient Logger Ext} h.
Arguments AddHandlers {Err K8sClient Logger Ext} r handler.
Arguments mkKube {Err K8sClient Logger Ext} Obj Time _ _ _ _ _ _ _ _.
Arguments ContainsFinalizer {Err K8sClient Logger Ext} k _ _ _.
Arguments GetDeletionTimestamp {Err K8sClient Logger Ext} k _ _.
Arguments FinalizerHandler {Err K8sClient Logger Ext} K obj key _.
Arguments DeletionHandler {Err K8sClient Logger Ext} K obj final _.
Arguments TestState_Run_runner {Err K8sClient Logger} zeroLogger {Ext} K c l rule.

(** A small cluster: the captured data are the finalizers of the one
    object and whether it is in deletion; [Update] and [Delete] fail with
    the error 1 on a context that is done and do nothing else; nothing
    is kept of what is logged or printed. *)
Definition one_object : Kube nat unit nat (list string * bool) :=
  mkKube (Err:=nat) (K8sClient:=unit) (Logger:=nat) (Ext:=list string * bool)
    unit unit
    (λ _ key x, existsb (String.eqb key) (fst x))
    (λ _ key x, if existsb (String.eqb key) (fst x) then x
                else (fst x ++ [key], snd x))
    (λ _ key x, (filter (λ f : string, f ≠ key) (fst x), snd x))
    (λ _ x, if snd x then Some tt else None)
    (λ _ d _ x, (if d then Some 1 else None, x))
    (λ _ d _ x, (if d then Some 1 else None, x))
    (λ _ _ x, x)
    (λ _ x, x).

Lemma Run_keeps_existing_contexts_witness :
  allocated [false] (cancelCtx Background 0) = true ∧
  ∃ e s' m' tr,
    Run (pipeline (Err:=nat) 0 tt [noop; stopping None])
        (cancelCtx Background 0) (mkMem [false] tt) = Ok e s' m' tr ∧
    Done (flags m') (cancelCtx Background 0) = false.
Proof.
  split; [reflexivity|].
  destruct (Run_keeps_existing_contexts nat unit nat unit
              (pipeline 0 tt [noop; stopping None])
              (cancelCtx Background 0) (mkMem [false] tt)
              (cancelCtx Background 0))
    as (e & s' & m' & tr & Hrun & Hd & _).
  - repeat (constructor; [intros ctx; repeat constructor|]). constructor.
  - reflexivity.
  - exists e, s', m', tr. split; [exact Hrun|]. rewrite Hd. reflexivity.
Defined.

Lemma Run_again_starts_afresh_witness :
  done_after (Run (pipeline (Err:=nat) 0 tt [stopping None; noop])
                  TODO (fresh_mem tt)) TODO = false ∧
  ∃ e s' m' tr,
    Run (pipeline (Err:=nat) 0 tt [stopping None; noop]) TODO (fresh_mem tt)
    = Ok e s' m' tr ∧
    head (executed (trace (Run (mkRunner
                                  (handlers (pipeline (Err:=nat) 0 tt
                                               [stopping None; noop])) s')
                               TODO m'))) = Some 0.
Proof.
  split; [reflexivity|].
  apply (Run_again_starts_afresh nat unit nat unit
           (pipeline 0 tt [stopping None; noop]) TODO (fresh_mem tt) TODO).
  - discriminate.
  - reflexivity.
Defined.

Lemma Run_AddHandlers_not_reached_witness :
  Run (AddHandlers (pipeline (Ext:=unit) 0 tt [noop; failing 7])
                   [HandlerFunc_Handler noop]) TODO (fresh_mem tt) =
  Run (pipeline (Ext:=unit) 0 tt [noop; failing 7]) TODO (fresh_mem tt).
Proof.
  apply (Run_AddHandlers_not_reached nat unit nat unit).
  left. exists 7. reflexivity.
Defined.

Lemma Run_FinalizerHandler_present_witness :
  ContainsFinalizer one_object tt "finalizer" (["finalizer"], false) = true ∧
  outcome (Run (mkRunner [HandlerFunc_Handler
                            (FinalizerHandler one_object tt "finalizer");
                          HandlerFunc_Handler noop]
                         (mkState unit nat None tt 0))
               TODO (fresh_mem (["finalizer"], false))) =
  outcome (Run (mkRunner [HandlerFunc_Handler noop] (mkState unit nat None tt 0))
               TODO (fresh_mem (["finalizer"], false))).
Proof.
  split; [reflexivity|].
  apply (Run_FinalizerHandler_present nat unit nat (list string * bool)
           one_object tt "finalizer").
  reflexivity.
Defined.


Lemma Run_DeletionHandler_not_in_deletion_witness :
  GetDeletionTimestamp one_object tt (["finalizer"], false) = None ∧
  outcome (Run (mkRunner [HandlerFunc_Handler
                            (DeletionHandler one_object tt "finalizer");
                          HandlerFunc_Handler noop]
                         (mkState unit nat None tt 0))
               TODO (fresh_mem (["finalizer"], false))) =
  outcome (Run (mkRunner [HandlerFunc_Handler noop] (mkState unit nat None tt 0))
               TODO (fresh_mem (["finalizer"], false))).
Proof.
  split; [reflexivity|].
  apply (Run_DeletionHandler_not_in_deletion nat unit nat (list string * bool)
           one_object tt "finalizer").
  reflexivity.
Defined.


Lemma TestState_Run_finalizer_present_witness :
  ContainsFinalizer one_object tt "finalizer" (["finalizer"], false) = true ∧
  GetDeletionTimestamp one_object tt (["finalizer"], false) = None ∧
  result (Run (TestState_Run_runner 0 one_object tt 5 tt) TODO
              (fresh_mem (["finalizer"], false))) = Some None ∧
  executed (trace (Run (TestState_Run_runner 0 one_object tt 5 tt) TODO
                       (fresh_mem (["finalizer"], false)))) = [0; 1; 2; 3; 4].
Proof.
  split; [reflexivity|]. split; [reflexivity|].
  rewrite (TestState_Run_finalizer_present nat unit nat 0 (list string * bool)
             one_object tt 5 tt (fresh_mem (["finalizer"], false))
             eq_refl eq_refl).
  split; reflexivity.
Defined.

Lemma TestState_Run_in_deletion_witness :
  ContainsFinalizer one_object tt "finalizer" (["finalizer"], true) = true ∧
  GetDeletionTimestamp one_object tt (["finalizer"], true) = Some tt ∧
  result (Run (TestState_Run_runner 0 one_object tt 5 tt) TODO
              (fresh_mem (["finalizer"], true))) = Some None ∧
  executed (trace (Run (TestState_Run_runner 0 one_object tt 5 tt) TODO
                       (fresh_mem (["finalizer"], true)))) = [0; 1].
Proof.
  split; [reflexivity|]. split; [reflexivity|].
  rewrite (TestState_Run_in_deletion nat unit nat 0 (list string * bool)
             one_object tt 5 tt (fresh_mem (["finalizer"], true)) tt
             eq_refl eq_refl).
  split; reflexivity.
Defined.
